(** * The relay of [src/server/websocket.ts]

    A shallow embedding of [createWebSocketServer], [handleSubscription] and
    [broadcastMessage], and the properties of the session registry and of the
    message router that the specification states about them.

    The server is event driven: the transport ([ws]) calls the listeners the
    source registers, and a listener runs to its end or to its [await].  The
    embedding is a transition function [step] over the events the transport
    and the storage module deliver; what a transition does to the outside
    world (frames sent, storage calls, console lines, errors that escape) is
    the list of effects it returns. *)

From Stdlib Require Import ZArith Ascii String List Lia.
From stdpp Require Import base option list gmap strings pretty.

Local Set Warnings "-register-all".
Local Open Scope string_scope.
Local Open Scope list_scope.

(** ** JSON values

    What [JSON.parse] returns.  A number is kept as the text JavaScript prints
    it with: the router never computes with one.  An object is the list of its
    own properties in the order JavaScript enumerates them. *)

Inductive json : Type :=
| JNull
| JBool (b : bool)
| JNumber (repr : string)
| JString (s : string)
| JArray (items : list json)
| JObject (fields : list (string * json)).

Abbreviation props := (list (string * json)).

(** [o.k] on an object built by [JSON.parse]: the own property, or
    [undefined] ([None]); [Object.prototype] has none of the names the router
    reads. *)
Fixpoint get_prop (k : string) (fs : props) : option json :=
  match fs with
  | [] => None
  | (k', v) :: rest => if String.eqb k k' then Some v else get_prop k rest
  end.

(** [o.k = v]: an existing property keeps its place and takes the new value,
    a new one (with a name that is not an array index, as [deviceId] and
    [timestamp]) goes last. *)
Fixpoint set_prop (k : string) (v : json) (fs : props) : props :=
  match fs with
  | [] => [(k, v)]
  | (k', v') :: rest =>
      if String.eqb k k' then (k, v) :: rest else (k', v') :: set_prop k v rest
  end.

(** [x === s] for a string literal [s] and a value [x] that may be
    [undefined]. *)
Definition is_string (s : string) (x : option json) : bool :=
  match x with
  | Some (JString s') => String.eqb s' s
  | _ => false
  end.

(** ** [Date.prototype.toISOString]

    The time value is the number of milliseconds since the epoch, in UTC. *)
Module Date.
Local Open Scope Z_scope.

Definition digit (n : Z) : ascii := ascii_of_nat (48 + Z.to_nat (n mod 10)).

(** The last [w] decimal digits of [n], zero padded. *)
Fixpoint pad (w : nat) (n : Z) : string :=
  match w with
  | O => EmptyString
  | S w' => pad w' (n / 10) +:+ String (digit n) EmptyString
  end.

Definition msPerDay : Z := 86400000.

(** Year, month and day of the day number [days] (days since 1970-01-01)
    in the proleptic Gregorian calendar. *)
Definition civil (days : Z) : Z * Z * Z :=
  let z := days + 719468 in
  let era := z / 146097 in
  let doe := z - era * 146097 in
  let yoe := (doe - doe / 1460 + doe / 36524 - doe / 146096) / 365 in
  let doy := doe - (365 * yoe + yoe / 4 - yoe / 100) in
  let mp := (5 * doy + 2) / 153 in
  let d := doy - (153 * mp + 2) / 5 + 1 in
  let m := if mp <? 10 then mp + 3 else mp - 9 in
  let y := yoe + era * 400 + (if m <=? 2 then 1 else 0) in
  (y, m, d).

Definition year_text (y : Z) : string :=
  if (0 <=? y) && (y <=? 9999) then pad 4 y
  else (if y <? 0 then "-" else "+") +:+ pad 6 (Z.abs y).

Definition toISOString (t : Z) : string :=
  let '(y, m, d) := civil (t / msPerDay) in
  let ms := t mod msPerDay in
  year_text y +:+ "-" +:+ pad 2 m +:+ "-" +:+ pad 2 d +:+ "T" +:+
  pad 2 (ms / 3600000) +:+ ":" +:+ pad 2 (ms / 60000 mod 60) +:+ ":" +:+
  pad 2 (ms / 1000 mod 60) +:+ "." +:+ pad 3 (ms mod 1000) +:+ "Z".

End Date.

(** ** The transport: sockets and their ready states *)

(** A [WebSocket] object handed to the [connection] listener, named by the
    order in which the transport created it: the n-th accepted connection is
    socket [n]. *)
Abbreviation conn := nat.

Inductive ReadyState := CONNECTING | OPEN | CLOSING | CLOSED.

Inductive error :=
| SyntaxError                      (* thrown by [JSON.parse] *)
| TypeError                        (* property assignment on null or a primitive *)
| NotOpenError (rs : ReadyState)   (* thrown by [send] on a socket that is not open *)
| Rejection (reason : string).     (* a storage promise rejected *)

(** A computation that returns or throws. *)
Inductive result (A : Type) :=
| Ok (a : A)
| Throw (e : error).
Arguments Ok {A} a.
Arguments Throw {A} e.

(** What the source takes from its runtime and its libraries and does not
    define. *)
Class Runtime := {
  (** [JSON.parse], [None] when it throws a [SyntaxError]. *)
  JSON_parse : string -> option json;
  JSON_stringify : json -> string;
  (** The identifier the n-th call of [uuidv4()] returns. *)
  uuidv4 : nat -> string;
  (** A version 4 UUID is printed as 36 characters. *)
  uuidv4_length : forall n, String.length (uuidv4 n) = 36;
  (** Whether [send] without a callback throws on a closing or closed socket
      (older releases of [ws]) or drops the frame silently (newer ones). *)
  send_after_close_throws : bool
}.

(** ** The data of [createWebSocketServer] *)

Record ClientSession := {
  ws : conn;
  deviceId : string;
  userId : option string
}.

(** [parsed] after [parsed.deviceId = deviceId] (line 49): an object with the
    property set, or an array that carries it beside its elements. *)
Inductive parsed_value :=
| PObject (fs : props)
| PArray (items : list json) (device : string).

(** The properties the router reads from [parsed]. *)
Inductive field := Ftype | Fcontent | Fchannel.

Definition field_name (f : field) : string :=
  match f with
  | Ftype => "type"
  | Fcontent => "content"
  | Fchannel => "channel"
  end.

(** [parsed.type], [parsed.content] and [message.channel]: an array has none
    of the three. *)
Definition read (f : field) (p : parsed_value) : option json :=
  match p with
  | PObject fs => get_prop (field_name f) fs
  | PArray _ _ => None
  end.

(** [parsed.deviceId = deviceId] in strict mode (the file is an ES module):
    a [TypeError] on [null] and on a primitive. *)
Definition assign_deviceId (d : string) (v : json) : result parsed_value :=
  match v with
  | JObject fs => Ok (PObject (set_prop "deviceId" (JString d) fs))
  | JArray items => Ok (PArray items d)
  | JNull | JBool _ | JNumber _ | JString _ => Throw TypeError
  end.

(** [{...parsed}]: the own enumerable properties, index keys first. *)
Definition spread (p : parsed_value) : props :=
  match p with
  | PObject fs => fs
  | PArray items d =>
      imap (fun i v => (pretty i, v)) items ++ [("deviceId", JString d)]
  end.

(** The lines the source prints. *)
Inductive log_entry :=
| LogConnected                           (* line 28 *)
| LogReceived (parsed : parsed_value)    (* line 51 *)
| LogUnknownType (ty : option json)      (* line 72 *)
| LogErrorHandling (e : error)           (* line 76, [console.error] *)
| LogDisconnected                        (* line 82 *)
| LogSubscribed (channel : option json). (* line 97 *)

(** What a transition does to the outside world.  A storage call carries the
    socket whose listener made it. *)
Inductive effect :=
| Console (l : log_entry)
| WsSend (c : conn) (data : string)      (* a frame written to an open socket *)
| WsDiscard (c : conn) (data : string)   (* [send] on a closing or closed socket, dropped *)
| GetChatHistory (c : conn) (device : string)
| SaveChatMessage (c : conn) (device : string) (content : option json)
| Unhandled (e : error).                 (* an error no handler of the source catches *)

(** A listener waiting for a storage promise, with the variables it closes
    over. *)
Inductive continuation :=
| HistoryThen (c : conn) (device : string)                        (* lines 38-43 *)
| ChatResume (c : conn) (device : string) (parsed : parsed_value). (* lines 57-64 *)

Inductive settlement :=
| Fulfilled (v : option json)
| Rejected (e : error).

Record socket := {
  readyState : ReadyState;
  (** [deviceId] of the listeners registered on this socket (line 23). *)
  closure_deviceId : string
}.

Record state := {
  activeSessions : gmap string ClientSession;   (* line 19 *)
  clients : list conn;                          (* [wss.clients], in insertion order *)
  sockets : list socket;                        (* every socket ever accepted *)
  pending : gmap nat continuation;              (* storage promises not yet settled *)
  next_promise : nat;
  uuid_calls : nat;
  now : Z                                       (* the clock [new Date()] reads *)
}.

(** The server as [createWebSocketServer] returns it (lines 17-19 and 87):
    no session, no client. *)
Definition createWebSocketServer : state :=
  {| activeSessions := ∅; clients := []; sockets := []; pending := ∅;
     next_promise := 0; uuid_calls := 0; now := 0 |}.

Inductive event :=
| Connection (key : option string)      (* [wss] emits 'connection'; [key] is the sec-websocket-key header *)
| Message (c : conn) (data : string)    (* socket [c] emits 'message' *)
| Closing (c : conn)                    (* the closing handshake of [c] starts *)
| Close (c : conn)                      (* socket [c] emits 'close' *)
| Settle (p : nat) (r : settlement)     (* storage promise [p] settles *)
| Broadcast (message : json)            (* a caller runs [broadcastMessage(wss, message)] *)
| Tick (t : Z).                         (* the clock moves to [t] *)

(** ** Listener bodies

    The synchronous part of a listener: the effects it had, and the error it
    threw if it did not reach its end. *)
Definition body := (list effect * option error)%type.

Definition done (es : list effect) : body := (es, None).

Definition throw (e : error) : body := ([], Some e).

(** [b1; b2] *)
Definition seq (b1 b2 : body) : body :=
  match b1 with
  | (es, Some e) => (es, Some e)
  | (es, None) => (es ++ b2.1, b2.2)
  end.

(** [try { b } catch (error) { console.error('Error handling message:', error) }]
    (lines 47 and 75-77). *)
Definition catch_log (b : body) : list effect :=
  b.1 ++ match b.2 with
         | Some e => [Console (LogErrorHandling e)]
         | None => []
         end.

(** [b] with no handler around it: the error leaves the listener. *)
Definition escape (b : body) : list effect :=
  b.1 ++ match b.2 with
         | Some e => [Unhandled e]
         | None => []
         end.

(** [array.forEach(f)]: a throw of [f] ends the loop. *)
Fixpoint forEach {A : Type} (f : A -> body) (l : list A) : body :=
  match l with
  | [] => done []
  | x :: l' => seq (f x) (forEach f l')
  end.

Section Server.
Context {rt : Runtime}.

(** [c.send(data)] of the [ws] library, without a callback. *)
Definition send (st : state) (c : conn) (data : string) : body :=
  match readyState <$> sockets st !! c with
  | Some OPEN => done [WsSend c data]
  | Some CONNECTING => throw (NotOpenError CONNECTING)
  | Some rs =>
      if send_after_close_throws then throw (NotOpenError rs)
      else done [WsDiscard c data]
  | None => throw TypeError
  end.

(** [req.headers['sec-websocket-key'] || uuidv4()] (line 23): the header
    when it is truthy, the next identifier else; with the number of calls
    of [uuidv4] afterwards. *)
Definition header_or_uuid (key : option string) (calls : nat) : string * nat :=
  match key with
  | Some (String a k) => (String a k, calls)
  | Some EmptyString | None => (uuidv4 calls, S calls)
  end.

Definition welcome (d : string) : json :=
  JObject [("type", JString "connection");
           ("deviceId", JString d);
           ("message", JString "Connected to Ecosense WebSocket Server")].

(** The 'connection' listener (lines 21-85) up to the registration of the
    socket's own listeners.  The transport has put the new socket, open,
    into [wss.clients] before it calls the listener. *)
Definition on_connection (key : option string) (st : state) : state * list effect :=
  let c := length (sockets st) in
  let '(d, calls) := header_or_uuid key (uuid_calls st) in
  let session := {| ws := c; deviceId := d; userId := None |} in
  let st' :=
    {| activeSessions := <[d := session]> (activeSessions st);
       clients := clients st ++ [c];
       sockets := sockets st ++ [{| readyState := OPEN; closure_deviceId := d |}];
       pending := <[next_promise st := HistoryThen c d]> (pending st);
       next_promise := S (next_promise st);
       uuid_calls := calls;
       now := now st |} in
  (st',
   escape (seq (done [Console LogConnected])
          (seq (send st' c (JSON_stringify (welcome d)))
               (done [GetChatHistory c d])))).

(** The callback of [getChatHistory(deviceId).then] (lines 38-43); the
    promise it returns has no handler. *)
Definition history_then (c : conn) (r : settlement) (st : state) : list effect :=
  match r with
  | Rejected e => escape (throw e)
  | Fulfilled history =>
      escape (send st c (JSON_stringify
        (JObject (("type", JString "history") ::
                  match history with
                  | Some h => [("messages", h)]
                  | None => []
                  end))))
  end.

(** [handleSubscription] (lines 95-104).  A property whose value is
    [undefined] is left out by [JSON.stringify]. *)
Definition handleSubscription (st : state) (c : conn) (message : parsed_value) : body :=
  let channel := read Fchannel message in
  seq (done [Console (LogSubscribed channel)])
      (send st c (JSON_stringify
        (JObject (("type", JString "subscribed") ::
                  match channel with
                  | Some ch => [("channel", ch)]
                  | None => []
                  end)))).

(** A listener stops at an [await]: the rest of it waits in [pending]. *)
Definition suspend (k : continuation) (st : state) : state :=
  {| activeSessions := activeSessions st;
     clients := clients st;
     sockets := sockets st;
     pending := <[next_promise st := k]> (pending st);
     next_promise := S (next_promise st);
     uuid_calls := uuid_calls st;
     now := now st |}.

Definition resume (p : nat) (st : state) : state :=
  {| activeSessions := activeSessions st;
     clients := clients st;
     sockets := sockets st;
     pending := delete p (pending st);
     next_promise := next_promise st;
     uuid_calls := uuid_calls st;
     now := now st |}.

(** The 'message' listener of socket [c], whose [deviceId] is [d], up to
    its [await] (lines 46-55 and 65-78).  The outcome of [saveChatMessage]
    comes with the [Settle] event; a call that throws at once is, under
    [await] in the [try], the same as a promise that rejects. *)
Definition on_message (c : conn) (d : string) (data : string) (st : state)
  : state * list effect :=
  match JSON_parse data with
  | None => (st, catch_log (throw SyntaxError))
  | Some v =>
      match assign_deviceId d v with
      | Throw e => (st, catch_log (throw e))
      | Ok parsed =>
          if is_string "chat" (read Ftype parsed) then
            (suspend (ChatResume c d parsed) st,
             [Console (LogReceived parsed);
              SaveChatMessage c d (read Fcontent parsed)])
          else if is_string "subscribe" (read Ftype parsed) then
            (st, catch_log (seq (done [Console (LogReceived parsed)])
                                (handleSubscription st c parsed)))
          else
            (st, catch_log (done [Console (LogReceived parsed);
                                  Console (LogUnknownType (read Ftype parsed))]))
      end
  end.

Definition echo (parsed : parsed_value) (t : Z) : json :=
  JObject (set_prop "timestamp" (JString (Date.toISOString t)) (spread parsed)).

(** The 'message' listener after [await saveChatMessage(...)] (lines 57-64
    and the [catch] of 75-77). *)
Definition chat_resume (d : string) (parsed : parsed_value) (r : settlement)
    (st : state) : list effect :=
  match r with
  | Rejected e => catch_log (throw e)
  | Fulfilled _ =>
      match activeSessions st !! d with
      | Some targetSession =>
          catch_log (send st (ws targetSession)
                          (JSON_stringify (echo parsed (now st))))
      | None => catch_log (done [])
      end
  end.

(** The 'close' listeners of socket [c]: the transport's, which takes the
    socket out of [wss.clients], then the source's (lines 81-84). *)
Definition on_close (c : conn) (d : string) (st : state) : state * list effect :=
  ({| activeSessions := delete d (activeSessions st);
      clients := filter (fun c' => c' ≠ c) (clients st);
      sockets := <[c := {| readyState := CLOSED; closure_deviceId := d |}]> (sockets st);
      pending := pending st;
      next_promise := next_promise st;
      uuid_calls := uuid_calls st;
      now := now st |},
   [Console LogDisconnected]).

(** [broadcastMessage] (lines 111-117). *)
Definition broadcastMessage (st : state) (message : json) : body :=
  forEach (fun client =>
             match readyState <$> sockets st !! client with
             | Some OPEN => send st client (JSON_stringify message)
             | _ => done []
             end)
          (clients st).

Definition set_readyState (c : conn) (rs : ReadyState) (st : state) : state :=
  {| activeSessions := activeSessions st;
     clients := clients st;
     sockets := alter (fun s => {| readyState := rs;
                                   closure_deviceId := closure_deviceId s |}) c (sockets st);
     pending := pending st;
     next_promise := next_promise st;
     uuid_calls := uuid_calls st;
     now := now st |}.

Definition set_now (t : Z) (st : state) : state :=
  {| activeSessions := activeSessions st;
     clients := clients st;
     sockets := sockets st;
     pending := pending st;
     next_promise := next_promise st;
     uuid_calls := uuid_calls st;
     now := t |}.

(** One event.  The transport emits 'message' and 'close' on a socket it
    has accepted and not yet closed, and a promise settles once. *)
Definition step (st : state) (e : event) : state * list effect :=
  match e with
  | Connection key => on_connection key st
  | Message c data =>
      match sockets st !! c with
      | Some {| readyState := CLOSED |} | None => (st, [])
      | Some s => on_message c (closure_deviceId s) data st
      end
  | Closing c =>
      match sockets st !! c with
      | Some {| readyState := OPEN |} => (set_readyState c CLOSING st, [])
      | _ => (st, [])
      end
  | Close c =>
      match sockets st !! c with
      | Some {| readyState := CLOSED |} | None => (st, [])
      | Some s => on_close c (closure_deviceId s) st
      end
  | Settle p r =>
      match pending st !! p with
      | Some (HistoryThen c _) => (resume p st, history_then c r (resume p st))
      | Some (ChatResume _ d parsed) =>
          (resume p st, chat_resume d parsed r (resume p st))
      | None => (st, [])
      end
  | Broadcast message => (st, escape (broadcastMessage st message))
  | Tick t => (set_now t st, [])
  end.

Fixpoint run (st : state) (evs : list event) : state * list effect :=
  match evs with
  | [] => (st, [])
  | e :: evs' =>
      let '(st1, es1) := step st e in
      let '(st2, es2) := run st1 evs' in
      (st2, es1 ++ es2)
  end.

Inductive reachable : state -> Prop :=
| reachable_initial : reachable createWebSocketServer
| reachable_step st e : reachable st -> reachable (step st e).1.

End Server.

#[global] Instance ReadyState_eq_dec : EqDecision ReadyState.
Proof. solve_decision. Defined.

(** The property [k] of a value [JSON.parse] returned, for the names the
    events use ([type], [deviceId], [content], [timestamp]), none of which is
    an index or [length]: only an object can have one, and [None] stands for
    [undefined]. *)
Definition prop (k : string) (v : json) : option json :=
  match v with
  | JObject fs => get_prop k fs
  | _ => None
  end.

(** The [type] of an inbound event. *)
Definition type_of (v : json) : option json := prop "type" v.

(** ** A runtime for the examples

    [JSON.stringify] on the values the examples use (strings of printable
    ASCII), an identifier generator that counts, and a [JSON.parse] that
    knows the frames of the examples and rejects every other text. *)
Module Fixture.

Definition dquote : ascii := "034"%char.

Definition escape_char (a : ascii) : string :=
  if Ascii.eqb a dquote then String "\" (String dquote EmptyString)
  else if Ascii.eqb a "\" then "\\"
  else String a EmptyString.

Fixpoint escape_string (s : string) : string :=
  match s with
  | EmptyString => EmptyString
  | String a s' => escape_char a +:+ escape_string s'
  end.

Definition quote (s : string) : string :=
  String dquote (escape_string s +:+ String dquote EmptyString).

Fixpoint stringify (v : json) : string :=
  match v with
  | JNull => "null"
  | JBool true => "true"
  | JBool false => "false"
  | JNumber repr => repr
  | JString s => quote s
  | JArray items => "[" +:+ String.concat "," (map stringify items) +:+ "]"
  | JObject fs =>
      "{" +:+ String.concat ","
                (map (fun kv => quote kv.1 +:+ ":" +:+ stringify kv.2) fs)
          +:+ "}"
  end.

Definition chat_hello : json :=
  JObject [("type", JString "chat"); ("content", JString "hello")].

Definition chat_spoofed : json :=
  JObject [("type", JString "chat"); ("deviceId", JString "someone-else");
           ("content", JString "hello")].

Definition chat_no_content : json := JObject [("type", JString "chat")].

Definition subscribe_weather : json :=
  JObject [("type", JString "subscribe"); ("channel", JString "weather")].

Definition ping : json := JObject [("type", JString "ping")].

Definition untyped : json := JObject [("content", JString "hello")].

Definition frames : list json :=
  [chat_hello; chat_spoofed; chat_no_content; subscribe_weather; ping;
   untyped; JNull; JNumber "42"; JArray [JNumber "1"; JNumber "2"]].

Definition parse (text : string) : option json :=
  List.find (fun v => String.eqb (stringify v) text) frames.

Definition uuid (n : nat) : string :=
  "00000000-0000-4000-8000-" +:+ Date.pad 12 (Z.of_nat n).

Definition runtime : Runtime :=
  {| JSON_parse := parse;
     JSON_stringify := stringify;
     uuidv4 := uuid;
     uuidv4_length := fun _ => eq_refl;
     send_after_close_throws := false |}.

(** The same with the [send] of the older [ws] releases. *)
Definition strict_runtime : Runtime :=
  {| JSON_parse := parse;
     JSON_stringify := stringify;
     uuidv4 := uuid;
     uuidv4_length := fun _ => eq_refl;
     send_after_close_throws := true |}.

End Fixture.

(** ** States of the examples *)
Module Scenario.

(** One client, connected with the handshake key [k]. *)
Definition one_client : state :=
  (run (rt := Fixture.runtime) createWebSocketServer [Connection (Some "k")]).1.

(** Two clients connected with the same handshake key [k]. *)
Definition same_key : state :=
  (run (rt := Fixture.runtime) createWebSocketServer
       [Connection (Some "k"); Connection (Some "k")]).1.

(** Two clients with the same key, the first of which has sent a chat
    message whose append has not completed yet. *)
Definition same_key_chat : state :=
  (run (rt := Fixture.runtime) createWebSocketServer
       [Connection (Some "k"); Connection (Some "k");
        Message 0 (Fixture.stringify Fixture.chat_hello)]).1.

(** Four clients, the second of which is closing. *)
Definition three_open_one_closing : state :=
  (run (rt := Fixture.runtime) createWebSocketServer
       [Connection (Some "a"); Connection (Some "b"); Connection (Some "c");
        Connection (Some "d"); Closing 1]).1.

(** Four clients, the second of which has closed. *)
Definition three_open_one_closed : state :=
  (run (rt := Fixture.runtime) createWebSocketServer
       [Connection (Some "a"); Connection (Some "b"); Connection (Some "c");
        Connection (Some "d"); Close 1]).1.

(** One client that is closing, under the [send] of the older [ws]
    releases, with a chat message whose append has not completed. *)
Definition closing_chat : state :=
  (run (rt := Fixture.strict_runtime) createWebSocketServer
       [Connection (Some "k"); Message 0 (Fixture.stringify Fixture.chat_hello);
        Closing 0]).1.

(** The socket of the one client. *)
Definition socket_k : socket := {| readyState := OPEN; closure_deviceId := "k" |}.

(** The echo of the chat message of socket 0 in [same_key_chat]. *)
Definition echo_hello : string :=
  Fixture.stringify
    (JObject [("type", JString "chat"); ("content", JString "hello");
              ("deviceId", JString "k");
              ("timestamp", JString "1970-01-01T00:00:00.000Z")]).

End Scenario.

(** ** The states the server can be in

    What every state reached from [createWebSocketServer] satisfies: the registry maps an
    identity to a session of that identity whose socket was accepted under
    it, [wss.clients] holds the accepted sockets that have not closed, and a
    waiting listener belongs to an accepted socket and holds its identity. *)
Record consistent (st : state) : Prop := {
  sessions_ok : forall d sess,
    activeSessions st !! d = Some sess ->
    deviceId sess = d /\ closure_deviceId <$> sockets st !! ws sess = Some d;
  clients_ok : forall c,
    c ∈ clients st <->
    exists s, sockets st !! c = Some s /\ readyState s <> CLOSED;
  clients_nodup : NoDup (clients st);
  never_connecting : forall c s,
    sockets st !! c = Some s -> readyState s <> CONNECTING;
  pending_history : forall p c d,
    pending st !! p = Some (HistoryThen c d) ->
    closure_deviceId <$> sockets st !! c = Some d;
  pending_chat : forall p c d parsed,
    pending st !! p = Some (ChatResume c d parsed) ->
    closure_deviceId <$> sockets st !! c = Some d;
  pending_bound : forall p k,
    pending st !! p = Some k -> p < next_promise st
}.

(** A storage call made by the listeners of socket [c] is keyed by [d]. *)
Definition keyed_by (c : conn) (d : string) (e : effect) : Prop :=
  match e with
  | GetChatHistory c' d' | SaveChatMessage c' d' _ => c' = c -> d' = d
  | _ => True
  end.

(** No storage call. *)
Definition no_call (e : effect) : Prop :=
  match e with
  | GetChatHistory _ _ | SaveChatMessage _ _ _ => False
  | _ => True
  end.

(** Not an error that left its listener. *)
Definition caught (e : effect) : Prop :=
  match e with
  | Unhandled _ => False
  | _ => True
  end.

Definition is_log (e : effect) : Prop :=
  match e with
  | Console _ => True
  | _ => False
  end.

(** ** Further notions *)

(** The frames a list of effects wrote to socket [c], in order. *)
Definition frames_to (c : conn) (es : list effect) : list string :=
  omap (fun e => match e with
                 | WsSend c' data => if decide (c' = c) then Some data else None
                 | _ => None
                 end) es.

(** Every session of the registry is that of a socket that has not closed,
    and names no user. *)
Definition registered_live (st : state) : Prop :=
  forall d session,
    activeSessions st !! d = Some session ->
    userId session = None
    /\ exists s, sockets st !! ws session = Some s /\ readyState s <> CLOSED.

(** No other socket was ever accepted under the identity of socket [c]. *)
Definition sole_identity (st : state) (c : conn) : Prop :=
  forall s c' s',
    sockets st !! c = Some s -> sockets st !! c' = Some s' ->
    closure_deviceId s' = closure_deviceId s -> c' = c.

(** A socket that has not closed and alone has its identity is the one the
    registry holds for it. *)
Definition sole_registered (st : state) : Prop :=
  forall c s,
    sockets st !! c = Some s -> readyState s <> CLOSED ->
    sole_identity st c ->
    activeSessions st !! closure_deviceId s =
      Some {| ws := c; deviceId := closure_deviceId s; userId := None |}.

(** The [history] event of lines 39-42. *)
Definition history_event (history : option json) : json :=
  JObject (("type", JString "history") ::
           match history with
           | Some h => [("messages", h)]
           | None => []
           end).

(** The [subscribed] event of lines 100-103. *)
Definition subscribed_event (channel : option json) : json :=
  JObject (("type", JString "subscribed") ::
           match channel with
           | Some ch => [("channel", ch)]
           | None => []
           end).

(** The frames written so far begin, for every accepted socket, with its
    [connection] event, and none was written to a socket not yet accepted. *)
Definition welcomed_first `{Runtime} (st : state) (es : list effect) : Prop :=
  forall c,
    match sockets st !! c with
    | Some s =>
        exists rest,
          frames_to c es = JSON_stringify (welcome (closure_deviceId s)) :: rest
    | None => frames_to c es = []
    end.

(** The appends a list of effects made, in order: socket, identity and
    content of each call of [saveChatMessage]. *)
Definition appends (es : list effect) : list (conn * string * option json) :=
  omap (fun e => match e with
                 | SaveChatMessage c d content => Some (c, d, content)
                 | _ => None
                 end) es.

(** A frame that parses to a chat event. *)
Definition is_chat_frame `{Runtime} (data : string) : Prop :=
  exists fs,
    JSON_parse data = Some (JObject fs)
    /\ get_prop "type" fs = Some (JString "chat").

(** The [content] of the event a frame parses to. *)
Definition content_of `{Runtime} (data : string) : option json :=
  match JSON_parse data with
  | Some v => prop "content" v
  | None => None
  end.

(** ** More states of the examples *)
Module Cases.

(** One client with a chat message whose append has not completed. *)
Definition one_client_chat : state :=
  (run (rt := Fixture.runtime) createWebSocketServer
       [Connection (Some "k"); Message 0 (Fixture.stringify Fixture.chat_hello)]).1.

Definition stamped_hello : parsed_value :=
  PObject [("type", JString "chat"); ("content", JString "hello");
           ("deviceId", JString "k")].

End Cases.

(** The names of the properties of an object, in order. *)
Definition keys (fs : props) : list string := map fst fs.

(** * Properties *)

(** ** Examples of [toISOString] *)

Example toISOString_epoch : Date.toISOString 0 = "1970-01-01T00:00:00.000Z".
Proof. reflexivity. Qed.

Example toISOString_2023 :
  Date.toISOString 1700000000123 = "2023-11-14T22:13:20.123Z".
Proof. reflexivity. Qed.

Example toISOString_leap_day :
  Date.toISOString 951782400000 = "2000-02-29T00:00:00.000Z".
Proof. reflexivity. Qed.

Example toISOString_before_epoch :
  Date.toISOString (-1) = "1969-12-31T23:59:59.999Z".
Proof. reflexivity. Qed.

Example toISOString_year_9999 :
  Date.toISOString 253402300799999 = "9999-12-31T23:59:59.999Z".
Proof. reflexivity. Qed.

Example toISOString_year_10000 :
  Date.toISOString 253402300800000 = "+010000-01-01T00:00:00.000Z".
Proof. reflexivity. Qed.

Example toISOString_year_0 :
  Date.toISOString (-62167219200000) = "0000-01-01T00:00:00.000Z".
Proof. reflexivity. Qed.

Example toISOString_year_minus_1 :
  Date.toISOString (-62167219200001) = "-000001-12-31T23:59:59.999Z".
Proof. reflexivity. Qed.

Lemma string_length_app (s1 s2 : string) :
  String.length (s1 +:+ s2) = String.length s1 + String.length s2.
Proof. induction s1 as [|a s1 IH]; simpl; [done | by rewrite IH]. Qed.

Lemma pad_length w n : String.length (Date.pad w n) = w.
Proof.
  revert n. induction w as [|w IH]; intros n; simpl; [done|].
  rewrite string_length_app, IH. simpl. lia.
Qed.

(** The text is [YYYY-MM-DDTHH:mm:ss.sssZ], or the same with a sign and six
    digits for a year outside 0..9999. *)
Lemma toISOString_length t :
  String.length (Date.toISOString t) = 24 \/
  String.length (Date.toISOString t) = 27.
Proof.
  unfold Date.toISOString. destruct (Date.civil _) as [[y m] d].
  rewrite !string_length_app, !pad_length. unfold Date.year_text.
  destruct (_ && _); [left | right].
  - rewrite pad_length. reflexivity.
  - rewrite string_length_app, pad_length. by destruct (y <? 0)%Z.
Qed.

(** ** Properties of objects *)

Lemma get_set_prop_eq k v fs : get_prop k (set_prop k v fs) = Some v.
Proof.
  induction fs as [|[k' v'] rest IH]; simpl.
  - by rewrite String.eqb_refl.
  - destruct (String.eqb k k') eqn:E; simpl; rewrite ?String.eqb_refl, ?E; done.
Qed.

Lemma get_set_prop_ne k k' v fs :
  k <> k' -> get_prop k (set_prop k' v fs) = get_prop k fs.
Proof.
  intros Hne. apply String.eqb_neq in Hne.
  induction fs as [|[k0 v0] rest IH]; simpl.
  - by rewrite Hne.
  - destruct (String.eqb k' k0) eqn:E; simpl.
    + apply String.eqb_eq in E. subst k0. by rewrite Hne.
    + by rewrite IH.
Qed.

(** Stamping an object changes no property but [deviceId]. *)
Lemma read_assigned f d fs :
  read f (PObject (set_prop "deviceId" (JString d) fs)) = get_prop (field_name f) fs.
Proof. simpl. apply get_set_prop_ne. by destruct f. Qed.

Lemma is_string_true s x : is_string s x = true <-> x = Some (JString s).
Proof.
  destruct x as [[]|]; simpl; try (split; [discriminate | congruence]).
  rewrite String.eqb_eq. split; congruence.
Qed.

Lemma is_string_false s x : is_string s x = false <-> x <> Some (JString s).
Proof.
  rewrite <- is_string_true. destruct (is_string s x); split; congruence.
Qed.

Section Properties.
Context {rt : Runtime}.

Lemma send_open st c data :
  readyState <$> sockets st !! c = Some OPEN ->
  send st c data = done [WsSend c data].
Proof. intros H. unfold send. by rewrite H. Qed.

(** ** Every reachable state is consistent *)

Lemma consistent_initial : consistent createWebSocketServer.
Proof.
  split; simpl; try done.
  - intros c. split; [by intros ?%elem_of_nil | by intros (? & ? & _)].
  - constructor.
Qed.

Lemma consistent_suspend st c d parsed :
  consistent st ->
  closure_deviceId <$> sockets st !! c = Some d ->
  consistent (suspend (ChatResume c d parsed) st).
Proof.
  intros [] Hc. split; simpl; try done.
  - intros p c' d' Hp. apply lookup_insert_Some in Hp as [[_ [=]]|[_ Hp]]. eauto.
  - intros p c' d' parsed' Hp.
    apply lookup_insert_Some in Hp as [[_ [= -> -> ->]]|[_ Hp]]; eauto.
  - intros p k Hp. apply lookup_insert_Some in Hp as [[<- _]|[_ Hp]]; [lia|].
    apply pending_bound0 in Hp. lia.
Qed.

Lemma consistent_resume st p : consistent st -> consistent (resume p st).
Proof.
  intros []. split; simpl; try done.
  - intros p' c d Hp. apply lookup_delete_Some in Hp as [_ Hp]. eauto.
  - intros p' c d parsed Hp. apply lookup_delete_Some in Hp as [_ Hp]. eauto.
  - intros p' k Hp. apply lookup_delete_Some in Hp as [_ Hp]. eauto.
Qed.

Lemma consistent_set_now st t : consistent st -> consistent (set_now t st).
Proof. intros []. by split. Qed.

Lemma consistent_set_readyState st c rs :
  consistent st -> rs <> CLOSED -> rs <> CONNECTING ->
  (forall s, sockets st !! c = Some s -> readyState s <> CLOSED) ->
  consistent (set_readyState c rs st).
Proof.
  intros [] Hrs Hrs' Hlive.
  assert (Hid : forall c', closure_deviceId <$> alter
            (fun s => {| readyState := rs; closure_deviceId := closure_deviceId s |})
            c (sockets st) !! c' = closure_deviceId <$> sockets st !! c').
  { intros c'. destruct (decide (c = c')) as [->|Hne].
    - rewrite list_lookup_alter_eq. by destruct (sockets st !! c').
    - by rewrite list_lookup_alter_ne. }
  split; simpl; try done.
  - intros d sess Hd. rewrite Hid. eauto.
  - intros c'. rewrite clients_ok0. destruct (decide (c = c')) as [->|Hne].
    + rewrite list_lookup_alter_eq. split.
      * intros (s & Hs & _). rewrite Hs. simpl. eauto.
      * intros (s & Hs & _). destruct (sockets st !! c') as [s'|] eqn:E; [|done].
        eauto.
    + by rewrite list_lookup_alter_ne.
  - intros c' s. destruct (decide (c = c')) as [->|Hne].
    + rewrite list_lookup_alter_eq. destruct (sockets st !! c'); [|done].
      by intros [= <-].
    + rewrite list_lookup_alter_ne by done. eauto.
  - intros p c' d Hp. rewrite Hid. eauto.
  - intros p c' d parsed Hp. rewrite Hid. eauto.
Qed.

Lemma consistent_on_connection st key :
  consistent st -> consistent (on_connection key st).1.
Proof.
  intros []. unfold on_connection.
  destruct (header_or_uuid key (uuid_calls st)) as [d calls]. simpl.
  assert (Hold : forall c d', closure_deviceId <$> sockets st !! c = Some d' ->
            closure_deviceId <$> (sockets st ++
              [{| readyState := OPEN; closure_deviceId := d |}]) !! c = Some d').
  { intros c d' Hc. destruct (sockets st !! c) as [s|] eqn:E; [|done].
    by rewrite (lookup_app_l_Some _ _ _ _ E). }
  assert (Hnew : (sockets st ++ [{| readyState := OPEN; closure_deviceId := d |}])
                   !! length (sockets st)
                 = Some {| readyState := OPEN; closure_deviceId := d |}).
  { rewrite lookup_app_r by lia. by rewrite Nat.sub_diag. }
  split; simpl.
  - intros d' sess Hd. apply lookup_insert_Some in Hd as [[<- <-]|[_ Hd]]; simpl.
    + by rewrite Hnew.
    + destruct (sessions_ok0 _ _ Hd). eauto.
  - intros c. rewrite elem_of_app, list_elem_of_singleton, clients_ok0. split.
    + intros [(s & Hs & Hlive)| ->].
      * exists s. eauto using lookup_app_l_Some.
      * eexists. split; [exact Hnew|done].
    + intros (s & Hs & Hlive). apply lookup_app_Some in Hs as [Hs|[Hge Hs]]; [eauto|].
      right. apply list_lookup_singleton_Some in Hs as [Hs _]. lia.
  - apply NoDup_app. split_and!; [done| |apply NoDup_singleton].
    intros c Hc ->%list_elem_of_singleton.
    apply clients_ok0 in Hc as (s & Hs & _). apply lookup_lt_Some in Hs. lia.
  - intros c s Hs. apply lookup_app_Some in Hs as [Hs|[_ Hs]]; [eauto|].
    apply list_lookup_singleton_Some in Hs as [_ <-]. done.
  - intros p c d' Hp. apply lookup_insert_Some in Hp as [[_ [= <- <-]]|[_ Hp]].
    + by rewrite Hnew.
    + eauto.
  - intros p c d' parsed Hp. apply lookup_insert_Some in Hp as [[_ [=]]|[_ Hp]]. eauto.
  - intros p k Hp. apply lookup_insert_Some in Hp as [[<- _]|[_ Hp]]; [lia|].
    apply pending_bound0 in Hp. lia.
Qed.

Lemma consistent_on_close st c s :
  consistent st -> sockets st !! c = Some s ->
  consistent (on_close c (closure_deviceId s) st).1.
Proof.
  intros [] Hs. unfold on_close. simpl.
  assert (Hlt : c < length (sockets st)) by eauto using lookup_lt_Some.
  assert (Hid : forall c', closure_deviceId <$>
            <[c := {| readyState := CLOSED; closure_deviceId := closure_deviceId s |}]>
              (sockets st) !! c' = closure_deviceId <$> sockets st !! c').
  { intros c'. destruct (decide (c = c')) as [<-|Hne].
    - rewrite list_lookup_insert_eq by done. by rewrite Hs.
    - by rewrite list_lookup_insert_ne. }
  split; simpl.
  - intros d sess Hd. apply lookup_delete_Some in Hd as [_ Hd]. rewrite Hid. eauto.
  - intros c'. rewrite list_elem_of_filter, clients_ok0.
    destruct (decide (c = c')) as [<-|Hne].
    + rewrite list_lookup_insert_eq by done. split.
      * by intros [? _].
      * by intros (? & [= <-] & ?).
    + rewrite list_lookup_insert_ne by done. split; [by intros [_ ?] | by split].
  - by apply NoDup_filter.
  - intros c' s'. destruct (decide (c = c')) as [<-|Hne].
    + rewrite list_lookup_insert_eq by done. by intros [= <-].
    + rewrite list_lookup_insert_ne by done. eauto.
  - intros p c' d Hp. rewrite Hid. eauto.
  - intros p c' d parsed Hp. rewrite Hid. eauto.
  - done.
Qed.

Lemma consistent_on_message st c s data :
  consistent st -> sockets st !! c = Some s ->
  consistent (on_message c (closure_deviceId s) data st).1.
Proof.
  intros Hst Hs. unfold on_message.
  destruct (JSON_parse data) as [v|]; [|done].
  destruct (assign_deviceId (closure_deviceId s) v) as [parsed|e]; [|done].
  destruct (is_string "chat" (read Ftype parsed)).
  - apply consistent_suspend; [done|]. by rewrite Hs.
  - by destruct (is_string "subscribe" (read Ftype parsed)).
Qed.

Lemma consistent_step st e : consistent st -> consistent (step st e).1.
Proof.
  intros Hst. destruct e as [key|c data|c|c|p r|message|t]; simpl.
  - by apply consistent_on_connection.
  - destruct (sockets st !! c) as [[[] d]|] eqn:Hs; try done;
      by apply (consistent_on_message st c _ data Hst Hs).
  - destruct (sockets st !! c) as [[[] d]|] eqn:Hs; try done. simpl.
    apply consistent_set_readyState; try done.
    intros s. rewrite Hs. by intros [= <-].
  - destruct (sockets st !! c) as [[[] d]|] eqn:Hs; try done;
      by apply (consistent_on_close st c _ Hst Hs).
  - destruct (pending st !! p) as [[]|]; simpl; auto using consistent_resume.
  - done.
  - by apply consistent_set_now.
Qed.

Lemma reachable_consistent st : reachable st -> consistent st.
Proof.
  induction 1; [apply consistent_initial | by apply consistent_step].
Qed.

Lemma run_app st evs1 evs2 :
  run st (evs1 ++ evs2) =
  ((run (run st evs1).1 evs2).1, (run st evs1).2 ++ (run (run st evs1).1 evs2).2).
Proof.
  revert st. induction evs1 as [|e evs1 IH]; intros st; simpl.
  - by destruct (run st evs2).
  - destruct (step st e) as [st1 es1]. rewrite IH.
    destruct (run st1 evs1) as [st2 es2]. simpl.
    destruct (run st2 evs2) as [st3 es3]. simpl. by rewrite app_assoc.
Qed.

Lemma reachable_run st evs : reachable st -> reachable (run st evs).1.
Proof.
  revert st. induction evs as [|e evs IH]; intros st Hst; simpl; [done|].
  pose proof (reachable_step st e Hst) as Hstep.
  destruct (step st e) as [st1 es1]. specialize (IH st1 Hstep).
  by destruct (run st1 evs).
Qed.

(** ** The 'message' listener *)

Lemma step_message_live st c s data :
  sockets st !! c = Some s -> readyState s <> CLOSED ->
  step st (Message c data) = on_message c (closure_deviceId s) data st.
Proof. intros Hs Hlive. simpl. rewrite Hs. by destruct s as [[] d]. Qed.

Lemma read_type_assigned d v parsed :
  assign_deviceId d v = Ok parsed -> read Ftype parsed = type_of v.
Proof.
  destruct v; simpl; intros [= <-]; [done|]. apply (read_assigned Ftype).
Qed.

(** C4: a frame whose payload does not parse is logged and dropped.  The
    transition leaves the whole state as it was (registry, waiting storage
    calls, the ready state of every socket) and its only effect is the
    [console.error] line: no frame is sent, no storage call is made and no
    error escapes.  Whatever events follow are handled as if the frame had
    never arrived. *)
Theorem malformed_frame_dropped st c s data :
  sockets st !! c = Some s -> readyState s <> CLOSED ->
  JSON_parse data = None ->
  step st (Message c data) = (st, [Console (LogErrorHandling SyntaxError)])
  /\ forall evs,
       run st (Message c data :: evs) =
       ((run st evs).1, Console (LogErrorHandling SyntaxError) :: (run st evs).2).
Proof.
  intros Hs Hlive Hparse.
  assert (Hstep : step st (Message c data)
                  = (st, [Console (LogErrorHandling SyntaxError)])).
  { rewrite (step_message_live _ _ _ _ Hs Hlive). unfold on_message.
    by rewrite Hparse. }
  split; [done|]. intros evs.
  change (run st (Message c data :: evs))
    with (let '(st1, es1) := step st (Message c data) in
          let '(st2, es2) := run st1 evs in (st2, es1 ++ es2)).
  rewrite Hstep. by destruct (run st evs).
Qed.

(** C8: an event whose [type] is absent or is neither [chat] nor
    [subscribe] is only logged: the state is left as it was, so the registry
    is unchanged and no append waits, and every effect is a console line
    (the two [console.log] lines for an object or an array, the
    [console.error] line when the payload is [null] or a primitive and the
    stamping throws). *)
Theorem unknown_type_only_logs st c s data v :
  sockets st !! c = Some s -> readyState s <> CLOSED ->
  JSON_parse data = Some v ->
  type_of v <> Some (JString "chat") ->
  type_of v <> Some (JString "subscribe") ->
  step st (Message c data) =
    (st, match assign_deviceId (closure_deviceId s) v with
         | Ok parsed => [Console (LogReceived parsed);
                         Console (LogUnknownType (type_of v))]
         | Throw e => [Console (LogErrorHandling e)]
         end)
  /\ Forall is_log (step st (Message c data)).2.
Proof.
  intros Hs Hlive Hparse Hchat Hsub.
  assert (Hstep : step st (Message c data) =
    (st, match assign_deviceId (closure_deviceId s) v with
         | Ok parsed => [Console (LogReceived parsed);
                         Console (LogUnknownType (type_of v))]
         | Throw e => [Console (LogErrorHandling e)]
         end)).
  { rewrite (step_message_live _ _ _ _ Hs Hlive). unfold on_message.
    rewrite Hparse.
    destruct (assign_deviceId (closure_deviceId s) v) as [parsed|e] eqn:Ha; [|done].
    rewrite (read_type_assigned _ _ _ Ha).
    apply is_string_false in Hchat. apply is_string_false in Hsub.
    by rewrite Hchat, Hsub. }
  split; [done|]. rewrite Hstep. simpl.
  destruct (assign_deviceId (closure_deviceId s) v); repeat constructor.
Qed.

(** ** The 'connection' listener *)

Lemma step_connection st key :
  let c := length (sockets st) in
  let d := (header_or_uuid key (uuid_calls st)).1 in
  (step st (Connection key)).2 =
    [Console LogConnected; WsSend c (JSON_stringify (welcome d)); GetChatHistory c d].
Proof.
  simpl. unfold on_connection.
  destruct (header_or_uuid key (uuid_calls st)) as [d calls]. simpl.
  rewrite send_open; [done|]. simpl.
  rewrite lookup_app_r by lia. by rewrite Nat.sub_diag.
Qed.

Lemma uuidv4_nonempty n : uuidv4 n <> "".
Proof. intros H. pose proof (uuidv4_length n) as Hlen. by rewrite H in Hlen. Qed.

(** C9: an empty handshake key is handled as an absent one.  The transition
    is the same in both cases; the identity of the new socket, under which
    its session is registered, is the identifier a fresh call of [uuidv4]
    returns, and that is not the empty string. *)
Theorem empty_key_is_absent st :
  let c := length (sockets st) in
  let d := uuidv4 (uuid_calls st) in
  let st' := (step st (Connection (Some ""))).1 in
  step st (Connection (Some "")) = step st (Connection None)
  /\ closure_deviceId <$> sockets st' !! c = Some d
  /\ activeSessions st' !! d = Some {| ws := c; deviceId := d; userId := None |}
  /\ uuid_calls st' = S (uuid_calls st)
  /\ d <> "".
Proof.
  simpl. split_and!.
  - done.
  - rewrite lookup_app_r by lia. by rewrite Nat.sub_diag.
  - apply lookup_insert_eq.
  - done.
  - apply uuidv4_nonempty.
Qed.

(** ** Chat *)

Lemma step_chat st c s data fs :
  sockets st !! c = Some s -> readyState s <> CLOSED ->
  JSON_parse data = Some (JObject fs) ->
  get_prop "type" fs = Some (JString "chat") ->
  let d := closure_deviceId s in
  let parsed := PObject (set_prop "deviceId" (JString d) fs) in
  step st (Message c data) =
    (suspend (ChatResume c d parsed) st,
     [Console (LogReceived parsed); SaveChatMessage c d (get_prop "content" fs)]).
Proof.
  intros Hs Hlive Hparse Htype. simpl.
  change (match sockets st !! c with
          | Some {| readyState := CLOSED |} | None => (st, [])
          | Some s0 => on_message c (closure_deviceId s0) data st
          end) with (step st (Message c data)).
  rewrite (step_message_live _ _ _ _ Hs Hlive). unfold on_message.
  rewrite Hparse. simpl assign_deviceId. cbv iota.
  rewrite (read_assigned Ftype), (read_assigned Fcontent). simpl field_name.
  by rewrite Htype.
Qed.

Lemma step_settle_chat st p c d parsed r :
  pending st !! p = Some (ChatResume c d parsed) ->
  step st (Settle p r) = (resume p st, chat_resume d parsed r (resume p st)).
Proof. intros Hp. simpl. by rewrite Hp. Qed.

(** C1: a [chat] event.  The listener of socket [c], whose identity is [d],
    sets [deviceId] to [d] whatever the client sent under that name, calls
    the store with [d] and the event's content, and waits: the transition
    sends nothing.  When the append completes, in whatever state [st'] the
    server is then, the listener looks [d] up in the registry: with no entry
    it does nothing; with an entry it calls [send] on that entry's socket
    with the stamped event to which [timestamp], the ISO text of the clock,
    is added, inside the [try], so an open socket gets exactly that frame. *)
Theorem chat_dispatch st c s data fs :
  sockets st !! c = Some s -> readyState s <> CLOSED ->
  JSON_parse data = Some (JObject fs) ->
  get_prop "type" fs = Some (JString "chat") ->
  let d := closure_deviceId s in
  let stamped := set_prop "deviceId" (JString d) fs in
  let p := next_promise st in
  get_prop "deviceId" stamped = Some (JString d)
  /\ step st (Message c data) =
       (suspend (ChatResume c d (PObject stamped)) st,
        [Console (LogReceived (PObject stamped));
         SaveChatMessage c d (get_prop "content" fs)])
  /\ pending (step st (Message c data)).1 !! p = Some (ChatResume c d (PObject stamped))
  /\ forall st' v,
       pending st' !! p = Some (ChatResume c d (PObject stamped)) ->
       let payload :=
         JSON_stringify
           (JObject (set_prop "timestamp" (JString (Date.toISOString (now st')))
                              stamped)) in
       (step st' (Settle p (Fulfilled v))).1 = resume p st'
       /\ match activeSessions st' !! d with
          | Some targetSession =>
              (step st' (Settle p (Fulfilled v))).2 =
                catch_log (send st' (ws targetSession) payload)
              /\ (readyState <$> sockets st' !! ws targetSession = Some OPEN ->
                  (step st' (Settle p (Fulfilled v))).2 =
                    [WsSend (ws targetSession) payload])
          | None => (step st' (Settle p (Fulfilled v))).2 = []
          end.
Proof.
  intros Hs Hlive Hparse Htype d stamped p.
  pose proof (step_chat st c s data fs Hs Hlive Hparse Htype) as Hstep.
  split_and!.
  - apply get_set_prop_eq.
  - exact Hstep.
  - rewrite Hstep. simpl. apply lookup_insert_eq.
  - intros st' v Hp payload. rewrite (step_settle_chat _ _ _ _ _ _ Hp).
    split; [done|]. simpl.
    destruct (activeSessions st' !! d) as [targetSession|]; [|done].
    split; [done|]. intros Hopen.
    change (sockets (resume p st')) with (sockets st').
    unfold send. simpl. by rewrite Hopen.
Qed.

(** C10: the content of a [chat] event is not validated.  When the event has
    no [content] the store is called with [undefined] in its place, and when
    that append completes the echo is sent as for any other chat event: a
    registered open socket gets one frame, the event the client sent with
    [deviceId] set to the identity of the sender and [timestamp] to the ISO
    text of the clock.  The frame has type [chat], every other property of
    the event with the value the client sent, and still no [content]. *)
Theorem chat_without_content st c s data fs :
  sockets st !! c = Some s -> readyState s <> CLOSED ->
  JSON_parse data = Some (JObject fs) ->
  get_prop "type" fs = Some (JString "chat") ->
  get_prop "content" fs = None ->
  let d := closure_deviceId s in
  let stamped := set_prop "deviceId" (JString d) fs in
  let p := next_promise st in
  step st (Message c data) =
    (suspend (ChatResume c d (PObject stamped)) st,
     [Console (LogReceived (PObject stamped)); SaveChatMessage c d None])
  /\ forall st' v targetSession,
       pending st' !! p = Some (ChatResume c d (PObject stamped)) ->
       activeSessions st' !! d = Some targetSession ->
       readyState <$> sockets st' !! ws targetSession = Some OPEN ->
       let fields :=
         set_prop "timestamp" (JString (Date.toISOString (now st'))) stamped in
       (step st' (Settle p (Fulfilled v))).2 =
         [WsSend (ws targetSession) (JSON_stringify (JObject fields))]
       /\ get_prop "type" fields = Some (JString "chat")
       /\ get_prop "deviceId" fields = Some (JString d)
       /\ get_prop "timestamp" fields = Some (JString (Date.toISOString (now st')))
       /\ get_prop "content" fields = None
       /\ (forall k, k <> "deviceId" -> k <> "timestamp" ->
                     get_prop k fields = get_prop k fs).
Proof.
  intros Hs Hlive Hparse Htype Hcontent d stamped p.
  pose proof (step_chat st c s data fs Hs Hlive Hparse Htype) as Hstep.
  rewrite Hcontent in Hstep. split; [exact Hstep|].
  intros st' v targetSession Hp Hd Hopen fields.
  rewrite (step_settle_chat _ _ _ _ _ _ Hp). simpl. rewrite Hd.
  unfold fields, stamped. split_and!.
  - unfold send. simpl. by rewrite Hopen.
  - by rewrite !get_set_prop_ne.
  - rewrite get_set_prop_ne by done. apply get_set_prop_eq.
  - apply get_set_prop_eq.
  - by rewrite !get_set_prop_ne.
  - intros k Hk1 Hk2. by rewrite !get_set_prop_ne.
Qed.

(** The echo of a chat received on [A] is written to the socket the registry
    holds for the identity of [A] when the append completes, and to no
    other. *)
Lemma chat_resume_target st d parsed r B data :
  WsSend B data ∈ chat_resume d parsed r st ->
  chat_resume d parsed r st = [WsSend B data]
  /\ exists targetSession,
       activeSessions st !! d = Some targetSession /\ ws targetSession = B.
Proof.
  unfold chat_resume. destruct r as [v|e].
  - destruct (activeSessions st !! d) as [targetSession|]; [|by intros ?%elem_of_nil].
    unfold send.
    destruct (readyState <$> sockets st !! ws targetSession) as [[]|]; simpl;
      try destruct send_after_close_throws; simpl;
      intros Hin; repeat (apply elem_of_cons in Hin as [Hin|Hin]; try done);
      try (by apply elem_of_nil in Hin).
    all: injection Hin as -> ->; eauto.
  - simpl. intros Hin. apply elem_of_cons in Hin as [Hin|Hin]; [done|].
    by apply elem_of_nil in Hin.
Qed.

(** C2, as the code has it: the echo of a chat message received on
    connection [A] goes to the connection that the registry holds for the
    identity of [A] when the append completes, and to no other.  That
    connection was accepted under the identity of [A], so the echo never
    reaches a connection with another identity.  When it is open it gets
    the echo, and it alone: [A] if the registry holds [A], and not [A] if
    the registry holds another connection of that identity.  When the
    registry holds none, nobody gets the echo. *)
Theorem echo_goes_to_registered_connection st p A d parsed :
  reachable st ->
  pending st !! p = Some (ChatResume A d parsed) ->
  let data :=
    JSON_stringify
      (JObject (set_prop "timestamp" (JString (Date.toISOString (now st)))
                         (spread parsed))) in
  closure_deviceId <$> sockets st !! A = Some d
  /\ (forall r B data',
        WsSend B data' ∈ (step st (Settle p r)).2 ->
        closure_deviceId <$> sockets st !! B = Some d
        /\ (exists targetSession,
              activeSessions st !! d = Some targetSession /\ ws targetSession = B)
        /\ (step st (Settle p r)).2 = [WsSend B data']
        /\ data' = data)
  /\ (forall targetSession v,
        activeSessions st !! d = Some targetSession ->
        closure_deviceId <$> sockets st !! ws targetSession = Some d
        /\ (readyState <$> sockets st !! ws targetSession = Some OPEN ->
            (step st (Settle p (Fulfilled v))).2 = [WsSend (ws targetSession) data])
        /\ (forall B data',
              B <> ws targetSession ->
              WsSend B data' ∉ (step st (Settle p (Fulfilled v))).2))
  /\ (forall v,
        activeSessions st !! d = None ->
        (step st (Settle p (Fulfilled v))).2 = []).
Proof.
  intros Hst%reachable_consistent Hp data.
  assert (Hstep : forall r,
            (step st (Settle p r)).2 = chat_resume d parsed r (resume p st))
    by (intros r; by rewrite (step_settle_chat _ _ _ _ _ _ Hp)).
  assert (Htarget : forall r B data',
            WsSend B data' ∈ (step st (Settle p r)).2 ->
            (step st (Settle p r)).2 = [WsSend B data']
            /\ exists targetSession,
                 activeSessions st !! d = Some targetSession /\ ws targetSession = B).
  { intros r B data' Hin. rewrite Hstep in *.
    by apply chat_resume_target in Hin. }
  split_and!.
  - eauto using pending_chat.
  - intros r B data' Hin.
    destruct (Htarget _ _ _ Hin) as (Heq & targetSession & Hd & HB).
    pose proof (sessions_ok _ Hst _ _ Hd) as [_ Hsock]. rewrite HB in Hsock.
    split_and!; [done|by eexists|done|].
    rewrite Hstep in Heq. unfold chat_resume in Heq.
    destruct r as [v|e]; [|done]. simpl in Heq. rewrite Hd in Heq.
    unfold send in Heq. simpl in Heq.
    destruct (readyState <$> sockets st !! ws targetSession) as [[]|];
      simpl in Heq; try destruct send_after_close_throws; simpl in Heq;
      by injection Heq.
  - intros targetSession v Hd.
    pose proof (sessions_ok _ Hst _ _ Hd) as [_ Hsock].
    split_and!; [done| |].
    + intros Hopen. rewrite Hstep. unfold chat_resume. simpl. rewrite Hd.
      unfold send. simpl. by rewrite Hopen.
    + intros B data' HB Hin.
      destruct (Htarget _ _ _ Hin) as (_ & t & Hd' & Ht). congruence.
  - intros v Hd. rewrite Hstep. unfold chat_resume. simpl. by rewrite Hd.
Qed.

(** ** Broadcast *)

Lemma broadcastMessage_open st message :
  broadcastMessage st message =
  done (map (fun c => WsSend c (JSON_stringify message))
            (filter (fun c => readyState <$> sockets st !! c = Some OPEN) (clients st))).
Proof.
  unfold broadcastMessage. induction (clients st) as [|c l IH]; [done|].
  simpl. rewrite IH, filter_cons.
  destruct (decide (readyState <$> sockets st !! c = Some OPEN)) as [Hopen|Hno].
  - by rewrite Hopen, (send_open _ _ _ Hopen).
  - destruct (readyState <$> sockets st !! c) as [[]|]; done.
Qed.

(** C5, as the code has it: [broadcastMessage] goes through [wss.clients],
    the sockets the transport accepted and has not closed, whether or not
    the registry still holds a session for them.  Every one of them that is
    open gets the serialized message once, the same text for all; the others
    are passed over, nothing is thrown and the state is left as it was. *)
Theorem broadcast_reaches_open_clients st message :
  reachable st ->
  let recipients :=
    filter (fun c => readyState <$> sockets st !! c = Some OPEN) (clients st) in
  step st (Broadcast message) =
    (st, map (fun c => WsSend c (JSON_stringify message)) recipients)
  /\ NoDup recipients
  /\ forall c, c ∈ recipients <-> readyState <$> sockets st !! c = Some OPEN.
Proof.
  intros Hst%reachable_consistent recipients. split_and!.
  - simpl. rewrite broadcastMessage_open. unfold escape. simpl.
    by rewrite app_nil_r.
  - apply NoDup_filter, (clients_nodup _ Hst).
  - intros c. unfold recipients. rewrite list_elem_of_filter.
    split; [by intros [? _]|]. intros Hopen. split; [done|].
    apply (clients_ok _ Hst).
    destruct (sockets st !! c) as [s|]; [|done]. exists s. split; [done|].
    injection Hopen as ->. done.
Qed.

(** ** The registry *)

Lemma step_close_live st c s :
  sockets st !! c = Some s -> readyState s <> CLOSED ->
  step st (Close c) = on_close c (closure_deviceId s) st.
Proof. intros Hs Hlive. simpl. rewrite Hs. by destruct s as [[] d]. Qed.

(** C6: the registry holds at most one socket for an identity, a socket
    accepted under that identity.  A connection under an identity already
    present replaces the entry and does nothing to the socket that was
    there: every earlier socket keeps its ready state and its place in
    [wss.clients].  The close of a socket deletes the entry of its identity
    and no other, and changes nothing when there is none. *)
Theorem registry_last_writer_wins st :
  reachable st ->
  (forall d session session',
     activeSessions st !! d = Some session ->
     activeSessions st !! d = Some session' ->
     ws session = ws session'
     /\ deviceId session = d
     /\ closure_deviceId <$> sockets st !! ws session = Some d)
  /\ (forall key,
        let st' := (step st (Connection key)).1 in
        let d := (header_or_uuid key (uuid_calls st)).1 in
        activeSessions st' =
          <[d := {| ws := length (sockets st); deviceId := d; userId := None |}]>
            (activeSessions st)
        /\ (forall c s, sockets st !! c = Some s -> sockets st' !! c = Some s)
        /\ (forall c, c ∈ clients st -> c ∈ clients st'))
  /\ (forall c s,
        sockets st !! c = Some s -> readyState s <> CLOSED ->
        let st' := (step st (Close c)).1 in
        let d := closure_deviceId s in
        activeSessions st' = delete d (activeSessions st)
        /\ (activeSessions st !! d = None -> activeSessions st' = activeSessions st)
        /\ (forall d', d' <> d -> activeSessions st' !! d' = activeSessions st !! d')).
Proof.
  intros Hst%reachable_consistent. split_and!.
  - intros d session session' Hd Hd'.
    destruct (sessions_ok _ Hst _ _ Hd). split_and!; congruence.
  - intros key. simpl. unfold on_connection.
    destruct (header_or_uuid key (uuid_calls st)) as [d calls]. simpl.
    split_and!; [done| |].
    + intros c s Hs. by apply lookup_app_l_Some.
    + intros c Hc. apply elem_of_app. by left.
  - intros c s Hs Hlive. rewrite (step_close_live _ _ _ Hs Hlive).
    simpl. split_and!; [done| |].
    + intros Hnone. by apply delete_id.
    + intros d' Hne. by apply lookup_delete_ne.
Qed.

(** ** The identity of a connection *)

Lemma on_message_sockets c d data st :
  sockets (on_message c d data st).1 = sockets st.
Proof. unfold on_message. by repeat case_match. Qed.

(** The [deviceId] the listeners of a socket close over never changes. *)
Lemma step_closure_stable st e c d :
  closure_deviceId <$> sockets st !! c = Some d ->
  closure_deviceId <$> sockets (step st e).1 !! c = Some d.
Proof.
  intros Hc. destruct e as [key|c' data|c'|c'|p r|message|t]; simpl.
  - unfold on_connection.
    destruct (header_or_uuid key (uuid_calls st)) as [d' calls]. simpl.
    destruct (sockets st !! c) as [s|] eqn:E; [|done].
    by rewrite (lookup_app_l_Some _ _ _ _ E).
  - destruct (sockets st !! c') as [[[] d']|]; try done;
      by rewrite on_message_sockets.
  - destruct (sockets st !! c') as [[[] d']|] eqn:E; try done. simpl.
    destruct (decide (c' = c)) as [->|Hne].
    + rewrite list_lookup_alter_eq. by destruct (sockets st !! c).
    + by rewrite list_lookup_alter_ne.
  - destruct (sockets st !! c') as [[[] d']|] eqn:E; try done; simpl;
      (destruct (decide (c' = c)) as [->|Hne];
       [ rewrite list_lookup_insert_eq by eauto using lookup_lt_Some;
         by rewrite E in Hc
       | by rewrite list_lookup_insert_ne ]).
  - by destruct (pending st !! p) as [[]|].
  - done.
  - done.
Qed.

Lemma send_no_call st c data : Forall no_call (send st c data).1.
Proof.
  unfold send. destruct (readyState <$> sockets st !! c) as [[]|]; simpl;
    try destruct send_after_close_throws; simpl; repeat constructor.
Qed.

Lemma catch_log_no_call b : Forall no_call b.1 -> Forall no_call (catch_log b).
Proof.
  intros Hb. unfold catch_log. apply Forall_app. split; [done|].
  destruct b.2; repeat constructor.
Qed.

Lemma escape_no_call b : Forall no_call b.1 -> Forall no_call (escape b).
Proof.
  intros Hb. unfold escape. apply Forall_app. split; [done|].
  destruct b.2; repeat constructor.
Qed.

Lemma no_call_keyed c d es : Forall no_call es -> Forall (keyed_by c d) es.
Proof. intros Hes. eapply Forall_impl; [exact Hes|]. by intros []. Qed.

Lemma on_message_calls_keyed c' d' data st c d :
  (c' = c -> d' = d) ->
  Forall (keyed_by c d) (on_message c' d' data st).2.
Proof.
  intros Hcd. unfold on_message.
  destruct (JSON_parse data) as [v|]; [|repeat constructor].
  destruct (assign_deviceId d' v) as [parsed|err]; [|repeat constructor].
  destruct (is_string "chat" (read Ftype parsed)); [by repeat constructor|].
  apply no_call_keyed.
  destruct (is_string "subscribe" (read Ftype parsed)); [|repeat constructor].
  apply catch_log_no_call. simpl. do 2 (constructor; [done|]).
  apply send_no_call.
Qed.

(** The storage calls of one transition are keyed by the identity of the
    socket whose listener makes them. *)
Lemma step_calls_keyed st e c d :
  closure_deviceId <$> sockets (step st e).1 !! c = Some d ->
  Forall (keyed_by c d) (step st e).2.
Proof.
  intros Hc. destruct e as [key|c' data|c'|c'|p r|message|t].
  - rewrite step_connection. simpl in Hc. unfold on_connection in Hc.
    destruct (header_or_uuid key (uuid_calls st)) as [d' calls]. simpl in *.
    repeat constructor. intros <-.
    rewrite lookup_app_r in Hc by lia. rewrite Nat.sub_diag in Hc. by injection Hc.
  - simpl in *. destruct (sockets st !! c') as [s|] eqn:E; [|constructor].
    assert (Hon : Forall (keyed_by c d) (on_message c' (closure_deviceId s) data st).2).
    { apply on_message_calls_keyed. intros ->.
      destruct s as [[] d']; simpl in *; rewrite ?on_message_sockets in Hc;
        rewrite E in Hc; by injection Hc. }
    destruct s as [[] d']; simpl in *; auto.
  - simpl. destruct (sockets st !! c') as [[[] ?]|]; constructor.
  - simpl. destruct (sockets st !! c') as [[[] ?]|]; repeat constructor.
  - simpl. apply no_call_keyed.
    destruct (pending st !! p) as [[c0 d0|c0 d0 parsed]|]; simpl; [| |constructor].
    + unfold history_then. destruct r as [h|err]; [|repeat constructor].
      apply escape_no_call, send_no_call.
    + unfold chat_resume. destruct r as [h|err]; [|repeat constructor].
      destruct (activeSessions (resume p st) !! d0); [|constructor].
      apply catch_log_no_call, send_no_call.
  - simpl. rewrite broadcastMessage_open. apply no_call_keyed.
    unfold escape. simpl. rewrite app_nil_r. apply Forall_fmap, Forall_true. done.
  - constructor.
Qed.

Lemma run_calls_keyed st evs c d :
  closure_deviceId <$> sockets st !! c = Some d ->
  closure_deviceId <$> sockets (run st evs).1 !! c = Some d
  /\ Forall (keyed_by c d) (run st evs).2.
Proof.
  revert st. induction evs as [|e evs IH]; intros st Hc; simpl; [by split|].
  pose proof (step_closure_stable st e c d Hc) as Hc1.
  pose proof (step_calls_keyed st e c d Hc1) as Hk1.
  destruct (step st e) as [st1 es1]. simpl in *.
  destruct (IH st1 Hc1) as [Hc2 Hk2].
  destruct (run st1 evs) as [st2 es2]. simpl in *.
  split; [done|]. by apply Forall_app.
Qed.

Lemma consistent_run st evs : consistent st -> consistent (run st evs).1.
Proof.
  revert st. induction evs as [|e evs IH]; intros st Hst; simpl; [done|].
  pose proof (consistent_step st e Hst) as Hstep.
  destruct (step st e) as [st1 es1]. specialize (IH st1 Hstep).
  by destruct (run st1 evs).
Qed.

(** C7: the identity of a new connection is the handshake key when the
    transport supplies one, and the identifier of a fresh call of [uuidv4]
    otherwise.  A key is supplied when the header is there and is not the
    empty string: the transport accepts no connection with an empty key,
    and line 23 takes one as it takes an absent key.
    The [connection] event carries that identity as [deviceId], the history
    read made on connect is keyed by it, and so is, after any events, every
    storage call the listeners of the socket make and every echo lookup that
    waits for one of its appends: the identity the listeners close over
    stays what it was. *)
Theorem identity_fixed_for_lifetime st key evs :
  reachable st ->
  let c := length (sockets st) in
  let d := (header_or_uuid key (uuid_calls st)).1 in
  let st0 := (step st (Connection key)).1 in
  (forall k, key = Some k -> k <> "" -> d = k /\ uuid_calls st0 = uuid_calls st)
  /\ (key = None \/ key = Some "" ->
      d = uuidv4 (uuid_calls st) /\ uuid_calls st0 = S (uuid_calls st))
  /\ (step st (Connection key)).2 =
       [Console LogConnected; WsSend c (JSON_stringify (welcome d));
        GetChatHistory c d]
  /\ prop "deviceId" (welcome d) = Some (JString d)
  /\ closure_deviceId <$> sockets (run st0 evs).1 !! c = Some d
  /\ Forall (keyed_by c d) (run st0 evs).2
  /\ (forall p d' parsed,
        pending (run st0 evs).1 !! p = Some (ChatResume c d' parsed) -> d' = d).
Proof.
  intros Hst%reachable_consistent c d st0.
  assert (Hc0 : closure_deviceId <$> sockets st0 !! c = Some d).
  { unfold st0, d, c. simpl. unfold on_connection.
    destruct (header_or_uuid key (uuid_calls st)) as [d0 calls]. simpl.
    rewrite lookup_app_r by lia. by rewrite Nat.sub_diag. }
  destruct (run_calls_keyed st0 evs c d Hc0) as [Hc Hk].
  split_and!.
  - intros k -> Hk0. unfold st0, d. simpl. unfold on_connection.
    by destruct k as [|a k].
  - unfold st0, d. simpl. unfold on_connection. by intros [-> | ->].
  - apply step_connection.
  - done.
  - done.
  - done.
  - intros p d' parsed Hp.
    assert (Hcons : consistent (run st0 evs).1)
      by (apply consistent_run, consistent_step, Hst).
    pose proof (pending_chat _ Hcons _ _ _ _ Hp) as Hc'.
    rewrite Hc in Hc'. by injection Hc'.
Qed.

(** ** Errors *)

Lemma send_caught st c data : Forall caught (send st c data).1.
Proof.
  unfold send. destruct (readyState <$> sockets st !! c) as [[]|]; simpl;
    try destruct send_after_close_throws; simpl; repeat constructor.
Qed.

Lemma catch_log_caught b : Forall caught b.1 -> Forall caught (catch_log b).
Proof.
  intros Hb. unfold catch_log. apply Forall_app. split; [done|].
  destruct b.2; repeat constructor.
Qed.

(** No error leaves the 'message' listener, before its [await] or after. *)
Lemma message_listener_catches st c data :
  Forall caught (step st (Message c data)).2.
Proof.
  simpl. destruct (sockets st !! c) as [[rs d]|]; [|constructor].
  assert (Hon : Forall caught (on_message c d data st).2).
  { unfold on_message.
    destruct (JSON_parse data) as [v|]; [|repeat constructor].
    destruct (assign_deviceId d v) as [parsed|err]; [|repeat constructor].
    destruct (is_string "chat" (read Ftype parsed)); [repeat constructor|].
    destruct (is_string "subscribe" (read Ftype parsed)); [|repeat constructor].
    apply catch_log_caught. simpl. do 2 (constructor; [done|]).
    apply send_caught. }
  destruct rs; simpl; auto.
Qed.

Lemma chat_resume_catches st d parsed r :
  Forall caught (chat_resume d parsed r st).
Proof.
  unfold chat_resume. destruct r as [v|e]; [|repeat constructor].
  destruct (activeSessions st !! d); [|constructor].
  apply catch_log_caught, send_caught.
Qed.

(** At the failing input of C3: a client connects and the read of its
    history fails.  The socket stays open, but nothing catches the
    rejection: it is not logged, it leaves the listener as an unhandled
    rejection. *)
Theorem history_rejection_escapes key e :
  let d := (header_or_uuid key 0).1 in
  let out := run createWebSocketServer [Connection key; Settle 0 (Rejected e)] in
  out.2 = [Console LogConnected; WsSend 0 (JSON_stringify (welcome d));
           GetChatHistory 0 d; Unhandled e]
  /\ readyState <$> sockets out.1 !! 0 = Some OPEN.
Proof.
  destruct key as [[|a k]|]; simpl; rewrite lookup_insert_eq; by split.
Qed.

(** ** More invariants of the registry *)

Lemma on_message_activeSessions c d data st :
  activeSessions (on_message c d data st).1 = activeSessions st.
Proof. unfold on_message. by repeat case_match. Qed.

Lemma on_message_clients c d data st :
  clients (on_message c d data st).1 = clients st.
Proof. unfold on_message. by repeat case_match. Qed.

Lemma registered_live_step st e :
  consistent st -> registered_live st -> registered_live (step st e).1.
Proof.
  intros Hst Hlive. destruct e as [key|c data|c|c|p r|message|t]; simpl.
  - unfold on_connection.
    destruct (header_or_uuid key (uuid_calls st)) as [d calls]. simpl.
    intros d' session Hd. simpl in *.
    apply lookup_insert_Some in Hd as [[<- <-]|[_ Hd]]; simpl.
    + split; [done|].
      exists {| readyState := OPEN; closure_deviceId := d |}. split; [|done].
      rewrite lookup_app_r by lia. by rewrite Nat.sub_diag.
    + destruct (Hlive _ _ Hd) as (Hu & s & Hs & Hne). split; [done|].
      exists s. split; [by apply lookup_app_l_Some | done].
  - destruct (sockets st !! c) as [[[] d]|]; try done;
      intros d' session; rewrite on_message_activeSessions, on_message_sockets;
      apply Hlive.
  - destruct (sockets st !! c) as [[[] d]|] eqn:Hc; try done. simpl.
    intros d' session Hd. destruct (Hlive _ _ Hd) as (Hu & s & Hs & Hne).
    split; [done|]. simpl. destruct (decide (c = ws session)) as [->|Hcc].
    + rewrite list_lookup_alter_eq, Hs. simpl. eauto.
    + rewrite list_lookup_alter_ne by done. eauto.
  - destruct (sockets st !! c) as [s0|] eqn:Hc; [|done].
    assert (Hgoal : registered_live (on_close c (closure_deviceId s0) st).1).
    { simpl. intros d' session Hd. simpl in Hd.
      apply lookup_delete_Some in Hd as [Hdd Hd].
      destruct (Hlive _ _ Hd) as (Hu & s & Hs & Hne). split; [done|].
      destruct (decide (c = ws session)) as [->|Hcc].
      - destruct (sessions_ok _ Hst _ _ Hd) as [_ Hid].
        rewrite Hc in Hid. simpl in Hid. by injection Hid.
      - simpl. rewrite list_lookup_insert_ne by done. eauto. }
    by destruct s0 as [[] d0].
  - by destruct (pending st !! p) as [[]|].
  - done.
  - done.
Qed.

Lemma sole_identity_mono st st' c :
  (forall c0 d, closure_deviceId <$> sockets st !! c0 = Some d ->
                closure_deviceId <$> sockets st' !! c0 = Some d) ->
  is_Some (sockets st !! c) ->
  sole_identity st' c -> sole_identity st c.
Proof.
  intros Hmono [s0 Hs0] Hsole s c' s' Hs Hs' Heq.
  pose proof (Hmono c (closure_deviceId s)) as H1. rewrite Hs in H1.
  pose proof (Hmono c' (closure_deviceId s')) as H2. rewrite Hs' in H2.
  specialize (H1 eq_refl). specialize (H2 eq_refl).
  destruct (sockets st' !! c) as [t|] eqn:Ht; [|done].
  destruct (sockets st' !! c') as [t'|] eqn:Ht'; [|done].
  simpl in *. apply (Hsole t c' t' Ht Ht'). congruence.
Qed.

Lemma sole_registered_step st e :
  sole_registered st -> sole_registered (step st e).1.
Proof.
  intros Hreg c s Hs Hlive Hsole.
  assert (Hmono := fun c0 d => step_closure_stable st e c0 d).
  destruct e as [key|c1 data|c1|c1|p r|message|t]; simpl in *.
  - unfold on_connection in *.
    destruct (header_or_uuid key (uuid_calls st)) as [d0 calls]. simpl in *.
    apply lookup_app_Some in Hs as [Hs|[Hge Hs]].
    + assert (Hne : closure_deviceId s <> d0).
      { intros Heq. assert (length (sockets st) = c); [|apply lookup_lt_Some in Hs; lia].
        apply (Hsole s (length (sockets st))
                 {| readyState := OPEN; closure_deviceId := d0 |});
          [by apply lookup_app_l_Some| |done].
        simpl. rewrite lookup_app_r by lia. by rewrite Nat.sub_diag. }
      rewrite lookup_insert_ne by done. apply Hreg; [done..|].
      eapply sole_identity_mono; [|by eexists|exact Hsole]. exact Hmono.
    + apply list_lookup_singleton_Some in Hs as [Hc <-]. simpl.
      assert (c = length (sockets st)) as -> by lia. apply lookup_insert_eq.
  - assert (Hsock : sockets
        (match sockets st !! c1 with
         | Some {| readyState := CLOSED |} | None => (st, [])
         | Some s0 => on_message c1 (closure_deviceId s0) data st
         end).1 = sockets st)
      by (destruct (sockets st !! c1) as [[[] ?]|]; by rewrite ?on_message_sockets).
    assert (Hact : activeSessions
        (match sockets st !! c1 with
         | Some {| readyState := CLOSED |} | None => (st, [])
         | Some s0 => on_message c1 (closure_deviceId s0) data st
         end).1 = activeSessions st)
      by (destruct (sockets st !! c1) as [[[] ?]|]; by rewrite ?on_message_activeSessions).
    unfold sole_identity in Hsole. rewrite Hsock in *. rewrite Hact. by apply Hreg.
  - destruct (sockets st !! c1) as [[[] d1]|] eqn:Hc1; try (by apply Hreg). simpl in *.
    assert (Hold : exists s0, sockets st !! c = Some s0
                    /\ closure_deviceId s0 = closure_deviceId s
                    /\ readyState s0 <> CLOSED).
    { destruct (decide (c1 = c)) as [->|Hne].
      - rewrite list_lookup_alter_eq, Hc1 in Hs. injection Hs as <-. eauto.
      - rewrite list_lookup_alter_ne in Hs by done. eauto. }
    destruct Hold as (s0 & Hs0 & Hid & Hlive0). rewrite <- Hid.
    apply Hreg; [done..|].
    eapply sole_identity_mono; [|by eexists|exact Hsole]. exact Hmono.
  - destruct (sockets st !! c1) as [s1|] eqn:Hc1; [|by apply Hreg].
    assert (Hgoal : forall st',
      st' = (on_close c1 (closure_deviceId s1) st).1 ->
      sockets st' !! c = Some s -> readyState s <> CLOSED -> sole_identity st' c ->
      activeSessions st' !! closure_deviceId s =
        Some {| ws := c; deviceId := closure_deviceId s; userId := None |}).
    { intros st' -> Hs' Hlive' Hsole'. simpl in *.
      assert (Hlt : c1 < length (sockets st)) by eauto using lookup_lt_Some.
      destruct (decide (c1 = c)) as [->|Hne].
      { rewrite list_lookup_insert_eq in Hs' by done. by injection Hs' as <-. }
      rewrite list_lookup_insert_ne in Hs' by done.
      assert (Hd : closure_deviceId s <> closure_deviceId s1).
      { intros Heq. apply Hne.
        apply (Hsole' s c1 {| readyState := CLOSED;
                              closure_deviceId := closure_deviceId s1 |});
          [simpl; by rewrite list_lookup_insert_ne
          |simpl; by rewrite list_lookup_insert_eq
          |done]. }
      rewrite lookup_delete_ne by done. apply Hreg; [done..|].
      eapply sole_identity_mono; [|by eexists|exact Hsole'].
      intros c0 d. simpl. destruct (decide (c1 = c0)) as [->|Hc0].
      - rewrite list_lookup_insert_eq by done. by rewrite Hc1.
      - by rewrite list_lookup_insert_ne. }
    destruct s1 as [[] d1]; simpl in *; try (by apply (Hgoal _ eq_refl));
      by apply Hreg.
  - destruct (pending st !! p) as [[]|]; by apply Hreg.
  - by apply Hreg.
  - by apply Hreg.
Qed.

Lemma reachable_registered_live st : reachable st -> registered_live st.
Proof.
  induction 1 as [|st e Hst IH].
  - intros d session Hd. simpl in Hd. by rewrite lookup_empty in Hd.
  - apply registered_live_step; [by apply reachable_consistent | done].
Qed.

Lemma reachable_sole_registered st : reachable st -> sole_registered st.
Proof.
  induction 1 as [|st e Hst IH].
  - intros c s Hs. simpl in Hs. by rewrite lookup_nil in Hs.
  - by apply sole_registered_step.
Qed.

(** X1: the registry never keeps a socket that has closed.  In every state
    the server reaches, a session of the registry names no user and belongs
    to an accepted socket that is open or closing. *)
Theorem registry_holds_no_closed_socket st d session :
  reachable st ->
  activeSessions st !! d = Some session ->
  userId session = None
  /\ exists s, sockets st !! ws session = Some s
               /\ (readyState s = OPEN \/ readyState s = CLOSING).
Proof.
  intros Hst Hd.
  destruct (reachable_registered_live _ Hst _ _ Hd) as (Hu & s & Hs & Hne).
  split; [done|]. exists s. split; [done|].
  pose proof (never_connecting _ (reachable_consistent _ Hst) _ _ Hs).
  destruct (readyState s); auto; done.
Qed.

(** X2: what the completion of a chat append does, in every state the server
    reaches.  A failed append is logged and nothing is sent.  After a
    successful one, the echo is written to the registered socket of the
    identity when that socket is open; when it is closing, [send] drops the
    frame or throws, and the throw is caught and logged; with no registered
    socket nothing happens.  The state only loses the waiting listener. *)
Theorem chat_settle_outcome st p c d parsed r :
  reachable st ->
  pending st !! p = Some (ChatResume c d parsed) ->
  step st (Settle p r) =
    (resume p st,
     match r with
     | Rejected e => [Console (LogErrorHandling e)]
     | Fulfilled _ =>
         match activeSessions st !! d with
         | None => []
         | Some targetSession =>
             let data := JSON_stringify (echo parsed (now st)) in
             match readyState <$> sockets st !! ws targetSession with
             | Some OPEN => [WsSend (ws targetSession) data]
             | _ => if send_after_close_throws
                    then [Console (LogErrorHandling (NotOpenError CLOSING))]
                    else [WsDiscard (ws targetSession) data]
             end
         end
     end).
Proof.
  intros Hst Hp. rewrite (step_settle_chat _ _ _ _ _ _ Hp). f_equal.
  unfold chat_resume. destruct r as [v|e]; [|done]. simpl.
  destruct (activeSessions st !! d) as [targetSession|] eqn:Hd; [|done].
  destruct (reachable_registered_live _ Hst _ _ Hd) as (_ & s & Hs & Hne).
  pose proof (never_connecting _ (reachable_consistent _ Hst) _ _ Hs) as Hnc.
  unfold send. simpl. rewrite Hs. simpl.
  destruct s as [[] d0]; simpl in *; try done;
    by destruct send_after_close_throws.
Qed.

(** X3: a connected client that alone has its identity gets its own echo.
    In every state the server reaches, when the socket that sent a chat
    message is open and no other socket was ever accepted under its
    identity, the completion of the append writes the echo to that socket
    and to no other. *)
Theorem echo_returns_to_sole_sender st p A s d parsed v :
  reachable st ->
  pending st !! p = Some (ChatResume A d parsed) ->
  sockets st !! A = Some s -> readyState s = OPEN ->
  sole_identity st A ->
  step st (Settle p (Fulfilled v)) =
    (resume p st, [WsSend A (JSON_stringify (echo parsed (now st)))]).
Proof.
  intros Hst Hp Hs Hopen Hsole.
  rewrite (step_settle_chat _ _ _ _ _ _ Hp). f_equal.
  pose proof (pending_chat _ (reachable_consistent _ Hst) _ _ _ _ Hp) as Hid.
  rewrite Hs in Hid. injection Hid as <-.
  unfold chat_resume. simpl.
  rewrite (reachable_sole_registered _ Hst A s Hs); [|by rewrite Hopen|done].
  unfold send. simpl. rewrite Hs. simpl. by rewrite Hopen.
Qed.

(** X4: what the completion of the history read made on connect does, in
    every state the server reaches.  The [history] event goes to the socket
    that connected, whatever the registry holds by then; when that socket is
    no longer open, [send] drops the frame or throws, and nothing catches
    the throw.  The state only loses the waiting callback. *)
Theorem history_replay_outcome st p c d history :
  reachable st ->
  pending st !! p = Some (HistoryThen c d) ->
  exists s,
    sockets st !! c = Some s /\ closure_deviceId s = d
    /\ step st (Settle p (Fulfilled history)) =
         (resume p st,
          let data := JSON_stringify (history_event history) in
          match readyState s with
          | OPEN => [WsSend c data]
          | rs => if send_after_close_throws
                  then [Unhandled (NotOpenError rs)]
                  else [WsDiscard c data]
          end).
Proof.
  intros Hst%reachable_consistent Hp.
  pose proof (pending_history _ Hst _ _ _ Hp) as Hid.
  destruct (sockets st !! c) as [s|] eqn:Hs; [|done]. injection Hid as Hid.
  exists s. split_and!; [done..|]. simpl. rewrite Hp. f_equal.
  unfold history_then, send, history_event. simpl. rewrite Hs. simpl.
  pose proof (never_connecting _ Hst _ _ Hs) as Hnc.
  destruct s as [[] d0]; simpl in *; try done;
    by destruct send_after_close_throws.
Qed.

(** ** Which transitions do what *)

Lemma caught_not_unhandled es err : Forall caught es -> Unhandled err ∉ es.
Proof. intros Hes Hin. by apply (proj1 (Forall_forall _ _) Hes) in Hin. Qed.

Lemma no_call_not_save es c d content :
  Forall no_call es -> SaveChatMessage c d content ∉ es.
Proof. intros Hes Hin. by apply (proj1 (Forall_forall _ _) Hes) in Hin. Qed.

Lemma unhandled_origin st e err :
  Unhandled err ∈ (step st e).2 ->
  exists p r c d,
    e = Settle p r
    /\ pending st !! p = Some (HistoryThen c d)
    /\ (r = Rejected err
        \/ (exists history, r = Fulfilled history)
           /\ readyState <$> sockets st !! c <> Some OPEN).
Proof.
  intros Hin. destruct e as [key|c data|c|c|p r|message|t].
  - rewrite step_connection in Hin.
    exfalso. revert Hin. apply caught_not_unhandled. by repeat constructor.
  - exfalso. revert Hin. apply caught_not_unhandled, message_listener_catches.
  - exfalso. revert Hin. apply caught_not_unhandled. simpl.
    destruct (sockets st !! c) as [[[] ?]|]; constructor.
  - exfalso. revert Hin. apply caught_not_unhandled. simpl.
    destruct (sockets st !! c) as [[[] ?]|]; by repeat constructor.
  - simpl in Hin. destruct (pending st !! p) as [[c d|c d parsed]|] eqn:Hp.
    + exists p, r, c, d. split_and!; [done..|]. simpl in Hin.
      unfold history_then in Hin. destruct r as [history|e].
      * right. split; [by eexists|]. intros Hopen.
        change (sockets (resume p st)) with (sockets st) in Hin.
        rewrite send_open in Hin by done.
        revert Hin. apply caught_not_unhandled. by repeat constructor.
      * left. simpl in Hin. apply list_elem_of_singleton in Hin. congruence.
    + exfalso. revert Hin. apply caught_not_unhandled, chat_resume_catches.
    + by apply elem_of_nil in Hin.
  - exfalso. revert Hin. apply caught_not_unhandled. simpl.
    rewrite broadcastMessage_open. unfold escape. simpl. rewrite app_nil_r.
    apply Forall_fmap, Forall_true. done.
  - by apply elem_of_nil in Hin.
Qed.

(** X5: the callback of the history read is the one place an error can get
    out of.  In every state the server reaches, an error leaves a listener
    only when the promise of [getChatHistory] settles: either it rejected,
    or the history is to be sent to a socket that is closing or closed and
    [send] throws on such a socket.  The [connection] listener, the
    [message] listener before and after its [await] and the [close]
    listener let none out, and neither does [broadcastMessage] when its
    message is a JSON value.  (A message [JSON.stringify] throws on, a
    circular object or a BigInt, is no [json] value: that throw goes to the
    caller of [broadcastMessage] and is no part of this property.) *)
Theorem errors_escape_only_from_history_callback st e err :
  reachable st ->
  Unhandled err ∈ (step st e).2 ->
  exists p r c d s,
    e = Settle p r
    /\ pending st !! p = Some (HistoryThen c d)
    /\ sockets st !! c = Some s
    /\ (r = Rejected err
        \/ (exists history, r = Fulfilled history)
           /\ send_after_close_throws = true
           /\ err = NotOpenError (readyState s)
           /\ (readyState s = CLOSING \/ readyState s = CLOSED)).
Proof.
  intros Hst%reachable_consistent Hin.
  destruct (unhandled_origin _ _ _ Hin) as (p & r & c & d & -> & Hp & Hr).
  pose proof (pending_history _ Hst _ _ _ Hp) as Hid.
  destruct (sockets st !! c) as [s|] eqn:Hs; [|done].
  exists p, r, c, d, s. split_and!; [done..|].
  destruct Hr as [->|[[history ->] Hno]]; [by left|right].
  split; [by eexists|].
  simpl in Hin. rewrite Hp in Hin. simpl in Hin.
  unfold history_then, send in Hin. simpl in Hin. rewrite Hs in Hin. simpl in *.
  pose proof (never_connecting _ Hst _ _ Hs) as Hnc.
  destruct s as [[] d0]; simpl in *; try done;
    destruct send_after_close_throws; simpl in Hin;
    apply list_elem_of_singleton in Hin; try done;
    injection Hin as ->; auto.
Qed.


(** X7: the close of a socket leaves no session under its identity, also
    when the session that was there belonged to another socket, accepted
    later under the same identity and still open.  A chat append of that
    identity that completes afterwards is not echoed to anyone. *)
Theorem close_unregisters_identity st c s :
  sockets st !! c = Some s -> readyState s <> CLOSED ->
  let st' := (step st (Close c)).1 in
  let d := closure_deviceId s in
  activeSessions st' !! d = None
  /\ forall p c' parsed v,
       pending st' !! p = Some (ChatResume c' d parsed) ->
       (step st' (Settle p (Fulfilled v))).2 = [].
Proof.
  intros Hs Hlive st' d. unfold st'.
  rewrite (step_close_live _ _ _ Hs Hlive). simpl.
  split; [apply lookup_delete_eq|].
  intros p c' parsed v Hp. rewrite Hp. simpl. by rewrite lookup_delete_eq.
Qed.

(** X8: the store is appended to for chat events only.  Whatever the state,
    a transition calls [saveChatMessage] only when a socket that has not
    closed receives a frame that parses to an object whose [type] is [chat],
    and it calls it with the identity of that socket and the [content] the
    client sent. *)
Theorem append_only_for_chat st e c d content :
  SaveChatMessage c d content ∈ (step st e).2 ->
  exists data fs s,
    e = Message c data
    /\ sockets st !! c = Some s /\ readyState s <> CLOSED
    /\ closure_deviceId s = d
    /\ JSON_parse data = Some (JObject fs)
    /\ get_prop "type" fs = Some (JString "chat")
    /\ content = get_prop "content" fs.
Proof.
  intros Hin. destruct e as [key|c0 data|c0|c0|p r|message|t].
  - rewrite step_connection in Hin.
    exfalso. revert Hin. apply not_elem_of_cons. split; [done|].
    apply not_elem_of_cons. split; [done|].
    apply not_elem_of_cons. split; [done|]. apply not_elem_of_nil.
  - simpl in Hin. destruct (sockets st !! c0) as [s|] eqn:Hs;
      [|by apply elem_of_nil in Hin].
    assert (Hlive : readyState s <> CLOSED).
    { intros Hc. destruct s as [[] d0]; try done. by apply elem_of_nil in Hin. }
    assert (Hon : SaveChatMessage c d content ∈ (on_message c0 (closure_deviceId s) data st).2)
      by (by destruct s as [[] d0]).
    clear Hin. unfold on_message in Hon.
    destruct (JSON_parse data) as [v|] eqn:Hparse;
      [|exfalso; revert Hon; apply no_call_not_save; by repeat constructor].
    destruct (assign_deviceId (closure_deviceId s) v) as [parsed|err] eqn:Ha;
      [|exfalso; revert Hon; apply no_call_not_save; by repeat constructor].
    destruct (is_string "chat" (read Ftype parsed)) eqn:Hchat.
    + simpl in Hon. apply elem_of_cons in Hon as [Hon|Hon]; [done|].
      apply list_elem_of_singleton in Hon. injection Hon as -> -> ->.
      apply is_string_true in Hchat. destruct v as [| | | |items|fs]; try done.
      * injection Ha as <-. done.
      * injection Ha as <-. rewrite (read_assigned Ftype) in Hchat.
        rewrite (read_assigned Fcontent).
        exists data, fs, s. by split_and!.
    + exfalso. revert Hon. apply no_call_not_save.
      destruct (is_string "subscribe" (read Ftype parsed)); [|by repeat constructor].
      apply catch_log_no_call. simpl. do 2 (constructor; [done|]).
      apply send_no_call.
  - exfalso. revert Hin. apply no_call_not_save. simpl.
    destruct (sockets st !! c0) as [[[] ?]|]; constructor.
  - exfalso. revert Hin. apply no_call_not_save. simpl.
    destruct (sockets st !! c0) as [[[] ?]|]; by repeat constructor.
  - exfalso. revert Hin. apply no_call_not_save. simpl.
    destruct (pending st !! p) as [[c1 d1|c1 d1 parsed]|]; simpl; [| |constructor].
    + unfold history_then. destruct r as [h|err]; [|by repeat constructor].
      apply escape_no_call, send_no_call.
    + unfold chat_resume. destruct r as [h|err]; [|by repeat constructor].
      destruct (activeSessions (resume p st) !! d1); [|constructor].
      apply catch_log_no_call, send_no_call.
  - exfalso. revert Hin. apply no_call_not_save. simpl.
    rewrite broadcastMessage_open. unfold escape. simpl. rewrite app_nil_r.
    apply Forall_fmap, Forall_true. done.
  - by apply elem_of_nil in Hin.
Qed.

(** X9: only a connection and a close change the registry and
    [wss.clients].  A frame of any kind, the completion of a storage call,
    a broadcast: none of them adds, replaces or removes a session or a
    client, and none changes the identity of a socket. *)
Theorem registry_changes_only_on_connect_and_close st e :
  (forall key, e <> Connection key) -> (forall c, e <> Close c) ->
  activeSessions (step st e).1 = activeSessions st
  /\ clients (step st e).1 = clients st
  /\ forall c, closure_deviceId <$> sockets (step st e).1 !! c
               = closure_deviceId <$> sockets st !! c.
Proof.
  intros Hconn Hclose. destruct e as [key|c0 data|c0|c0|p r|message|t];
    [by destruct (Hconn key)| | |by destruct (Hclose c0)| | |]; simpl.
  - destruct (sockets st !! c0) as [[[] d0]|]; try done;
      by rewrite on_message_activeSessions, on_message_clients, on_message_sockets.
  - destruct (sockets st !! c0) as [[[] d0]|] eqn:Hs; try done. simpl.
    split_and!; [done..|]. intros c. destruct (decide (c0 = c)) as [->|Hne].
    + rewrite list_lookup_alter_eq. by destruct (sockets st !! c).
    + by rewrite list_lookup_alter_ne.
  - by destruct (pending st !! p) as [[]|].
  - done.
  - done.
Qed.

(** ** Composition *)

Lemma run_cons st e evs :
  run st (e :: evs) =
  ((run (step st e).1 evs).1, (step st e).2 ++ (run (step st e).1 evs).2).
Proof.
  change (run st (e :: evs))
    with (let '(st1, es1) := step st e in
          let '(st2, es2) := run st1 evs in (st2, es1 ++ es2)).
  destruct (step st e) as [st1 es1]. cbn [fst snd]. by destruct (run st1 evs).
Qed.

(** X10: connect, chat, append done.  From any state, a client that connects
    and sends a chat message gets, once the append has completed, its own
    message back: the transitions write the [connection] event and then the
    echo to the new socket, read the history and append the content under
    the identity the client was welcomed with, and the echo carries that
    identity. *)
Theorem connect_then_chat_echoes st key data fs v :
  JSON_parse data = Some (JObject fs) ->
  get_prop "type" fs = Some (JString "chat") ->
  let c := length (sockets st) in
  let d := (header_or_uuid key (uuid_calls st)).1 in
  let stamped := PObject (set_prop "deviceId" (JString d) fs) in
  (run st [Connection key; Message c data;
           Settle (S (next_promise st)) (Fulfilled v)]).2 =
    [Console LogConnected;
     WsSend c (JSON_stringify (welcome d));
     GetChatHistory c d;
     Console (LogReceived stamped);
     SaveChatMessage c d (get_prop "content" fs);
     WsSend c (JSON_stringify (echo stamped (now st)))].
Proof.
  intros Hparse Htype c d stamped.
  pose proof (step_connection st key) as Hconn.
  set (st1 := (step st (Connection key)).1).
  assert (Hs1 : sockets st1 !! c = Some {| readyState := OPEN; closure_deviceId := d |}).
  { unfold st1, c, d. simpl. unfold on_connection.
    destruct (header_or_uuid key (uuid_calls st)) as [d0 calls]. simpl.
    rewrite lookup_app_r by lia. by rewrite Nat.sub_diag. }
  assert (Hreg : activeSessions st1 !! d = Some {| ws := c; deviceId := d; userId := None |}).
  { unfold st1, c, d. simpl. unfold on_connection.
    destruct (header_or_uuid key (uuid_calls st)) as [d0 calls]. simpl.
    apply lookup_insert_eq. }
  assert (Hnp : next_promise st1 = S (next_promise st)).
  { unfold st1. simpl. unfold on_connection.
    by destruct (header_or_uuid key (uuid_calls st)) as [d0 calls]. }
  assert (Hnow : now st1 = now st).
  { unfold st1. simpl. unfold on_connection.
    by destruct (header_or_uuid key (uuid_calls st)) as [d0 calls]. }
  pose proof (step_chat st1 c _ data fs Hs1 ltac:(done) Hparse Htype) as Hchat.
  simpl closure_deviceId in Hchat. fold stamped in Hchat.
  set (st2 := suspend (ChatResume c d stamped) st1) in *.
  assert (Hp : pending st2 !! S (next_promise st) = Some (ChatResume c d stamped)).
  { unfold st2. simpl. rewrite Hnp. apply lookup_insert_eq. }
  pose proof (step_settle_chat st2 _ _ _ _ (Fulfilled v) Hp) as Hsettle.
  rewrite !run_cons. fold st1. rewrite Hconn, Hchat. cbn [fst snd].
  change (suspend (ChatResume c d (PObject (set_prop "deviceId" (JString d) fs))) st1)
    with st2.
  rewrite Hsettle. simpl. unfold chat_resume. simpl.
  rewrite Hreg. unfold send. simpl. rewrite Hs1. simpl. by rewrite Hnow.
Qed.

(** ** The echo *)

Lemma keys_set_prop k v fs :
  keys (set_prop k v fs) =
  if decide (k ∈ keys fs) then keys fs else keys fs ++ [k].
Proof.
  induction fs as [|[k' v'] rest IH]; simpl; [done|].
  destruct (String.eqb_spec k k') as [<-|Hne]; simpl.
  - rewrite decide_True; [done | by left].
  - rewrite IH. destruct (decide (k ∈ keys rest)) as [Hin|Hnin].
    + rewrite decide_True; [done | by right].
    + rewrite decide_False; [done|].
      intros [?|?]%elem_of_cons; done.
Qed.

(** X11: what an echo is made of.  The echo of an event is an object with
    the properties of the event in their order, [deviceId] and [timestamp]
    added after them when the event had none; [deviceId] is the identity of
    the sender and [timestamp] the ISO text of the time of the echo, also
    when the client sent values of its own under these names, and every
    other property has the value the client sent. *)
Theorem echo_carries_event_fields d fs t :
  exists fields,
    echo (PObject (set_prop "deviceId" (JString d) fs)) t = JObject fields
    /\ get_prop "deviceId" fields = Some (JString d)
    /\ get_prop "timestamp" fields = Some (JString (Date.toISOString t))
    /\ (forall k, k <> "deviceId" -> k <> "timestamp" ->
                  get_prop k fields = get_prop k fs)
    /\ keys fields =
         keys fs
         ++ (if decide ("deviceId" ∈ keys fs) then [] else ["deviceId"])
         ++ (if decide ("timestamp" ∈ keys fs) then [] else ["timestamp"]).
Proof.
  eexists. split; [reflexivity|]. simpl. split_and!.
  - rewrite get_set_prop_ne by done. apply get_set_prop_eq.
  - apply get_set_prop_eq.
  - intros k Hd Ht. by rewrite !get_set_prop_ne.
  - rewrite !keys_set_prop.
    destruct (decide ("deviceId" ∈ keys fs)) as [Hd|Hd].
    + destruct (decide ("timestamp" ∈ keys fs)); by rewrite ?app_nil_r.
    + destruct (decide ("timestamp" ∈ keys fs)) as [Ht|Ht].
      * rewrite decide_True; [done|]. apply elem_of_app. by left.
      * rewrite decide_False; [by rewrite <- app_assoc|].
        intros [?|?%list_elem_of_singleton]%elem_of_app; done.
Qed.

(** ** The frames a socket gets *)

Lemma frames_to_app c es1 es2 :
  frames_to c (es1 ++ es2) = frames_to c es1 ++ frames_to c es2.
Proof. apply omap_app. Qed.

Lemma send_frames_to_absent st c' c data :
  sockets st !! c = None -> frames_to c (send st c' data).1 = [].
Proof.
  intros Hc. unfold send.
  destruct (readyState <$> sockets st !! c') as [[]|] eqn:Hc'; simpl;
    try done; try (by destruct send_after_close_throws).
  unfold frames_to. simpl. rewrite decide_False; [done|].
  intros ->. by rewrite Hc in Hc'.
Qed.

Lemma frames_to_catch_log c b : frames_to c (catch_log b) = frames_to c b.1.
Proof.
  unfold catch_log. rewrite frames_to_app. destruct b.2; simpl; by rewrite app_nil_r.
Qed.

Lemma frames_to_escape c b : frames_to c (escape b) = frames_to c b.1.
Proof.
  unfold escape. rewrite frames_to_app. destruct b.2; simpl; by rewrite app_nil_r.
Qed.

(** A transition other than a connection accepts no socket. *)
Lemma step_sockets_None st e c :
  (forall key, e <> Connection key) ->
  sockets st !! c = None -> sockets (step st e).1 !! c = None.
Proof.
  intros Hconn Hc. destruct e as [key|c0 data|c0|c0|p r|message|t]; simpl.
  - by destruct (Hconn key).
  - destruct (sockets st !! c0) as [[[] d0]|]; by rewrite ?on_message_sockets.
  - destruct (sockets st !! c0) as [[[] d0]|] eqn:Hs; try done. simpl.
    destruct (decide (c0 = c)) as [->|Hne]; [by rewrite Hc in Hs|].
    by rewrite list_lookup_alter_ne.
  - destruct (sockets st !! c0) as [[[] d0]|] eqn:Hs; try done; simpl;
      (destruct (decide (c0 = c)) as [->|Hne]; [by rewrite Hc in Hs|];
       by rewrite list_lookup_insert_ne).
  - by destruct (pending st !! p) as [[]|].
  - done.
  - done.
Qed.

(** A transition other than a connection writes nothing to a socket that
    was not accepted. *)
Lemma step_frames_to_absent st e c :
  (forall key, e <> Connection key) ->
  sockets st !! c = None -> frames_to c (step st e).2 = [].
Proof.
  intros Hconn Hc. destruct e as [key|c0 data|c0|c0|p r|message|t]; simpl.
  - by destruct (Hconn key).
  - destruct (sockets st !! c0) as [[rs d0]|]; [|done].
    assert (Hon : frames_to c (on_message c0 d0 data st).2 = []).
    { unfold on_message. destruct (JSON_parse data) as [v|]; [|done].
      destruct (assign_deviceId d0 v) as [parsed|err]; [|done].
      destruct (is_string "chat" (read Ftype parsed)); [done|].
      destruct (is_string "subscribe" (read Ftype parsed)); [|done].
      cbn [snd]. rewrite frames_to_catch_log. simpl.
      change (frames_to c (send st c0 (JSON_stringify
                (subscribed_event (read Fchannel parsed)))).1 = []).
      by apply send_frames_to_absent. }
    by destruct rs.
  - by destruct (sockets st !! c0) as [[[] d0]|].
  - by destruct (sockets st !! c0) as [[[] d0]|].
  - destruct (pending st !! p) as [[c1 d1|c1 d1 parsed]|]; simpl; [| |done].
    + unfold history_then. destruct r as [h|err]; [|done].
      rewrite frames_to_escape. by apply send_frames_to_absent.
    + unfold chat_resume. destruct r as [h|err]; [|done].
      destruct (activeSessions (resume p st) !! d1); [|done].
      rewrite frames_to_catch_log. by apply send_frames_to_absent.
  - rewrite broadcastMessage_open. unfold escape. simpl. rewrite app_nil_r.
    induction (clients st) as [|c1 l IH]; [done|]. rewrite filter_cons.
    destruct (decide (readyState <$> sockets st !! c1 = Some OPEN)) as [Hopen|]; [|done].
    simpl. unfold frames_to in *. simpl. rewrite decide_False; [done|].
    intros ->. by rewrite Hc in Hopen.
  - done.
Qed.

Lemma classic_connection e :
  (exists key, e = Connection key) \/ (forall key, e <> Connection key).
Proof. destruct e; eauto. Qed.

Lemma welcomed_first_step st es e :
  welcomed_first st es -> welcomed_first (step st e).1 (es ++ (step st e).2).
Proof.
  intros HQ c. specialize (HQ c). rewrite frames_to_app.
  destruct (sockets st !! c) as [s|] eqn:Hs.
  - destruct HQ as [rest Hrest].
    pose proof (step_closure_stable st e c (closure_deviceId s)) as Hstable.
    rewrite Hs in Hstable. specialize (Hstable eq_refl).
    destruct (sockets (step st e).1 !! c) as [s'|]; [|done].
    injection Hstable as ->. rewrite Hrest. by eexists.
  - rewrite HQ. simpl.
    destruct (classic_connection e) as [[key ->]|Hconn].
    + rewrite step_connection. simpl. unfold on_connection.
      destruct (header_or_uuid key (uuid_calls st)) as [d calls]. simpl.
      apply lookup_ge_None in Hs. unfold frames_to. simpl.
      destruct (decide (length (sockets st) = c)) as [<-|Hne].
      * rewrite lookup_app_r by lia. rewrite Nat.sub_diag. simpl. by eexists.
      * rewrite lookup_ge_None_2; [done|]. rewrite length_app. simpl. lia.
    + rewrite (step_sockets_None _ _ _ Hconn Hs).
      by apply step_frames_to_absent.
Qed.

Lemma welcomed_first_run st es evs :
  welcomed_first st es ->
  welcomed_first (run st evs).1 (es ++ (run st evs).2).
Proof.
  revert st es. induction evs as [|e evs IH]; intros st es HQ.
  - simpl. by rewrite app_nil_r.
  - rewrite run_cons. cbn [fst snd]. rewrite app_assoc.
    by apply IH, welcomed_first_step.
Qed.

(** X12: the first frame a client gets is its [connection] event.  After any
    sequence of events on a new server, the frames written to an accepted
    socket begin with the [connection] event that carries the identity of
    that socket: no history, echo, confirmation or broadcast comes before
    it. *)
Theorem first_frame_is_welcome evs c s :
  sockets (run createWebSocketServer evs).1 !! c = Some s ->
  exists rest,
    frames_to c (run createWebSocketServer evs).2 =
    JSON_stringify (welcome (closure_deviceId s)) :: rest.
Proof.
  intros Hs.
  assert (H0 : welcomed_first createWebSocketServer []) by (by intros c0).
  pose proof (welcomed_first_run _ _ evs H0 c) as HQ.
  by rewrite Hs in HQ.
Qed.

(** ** Several chat messages *)

Lemma appends_app es1 es2 : appends (es1 ++ es2) = appends es1 ++ appends es2.
Proof. apply omap_app. Qed.

(** X13: appends are made in the order the frames arrive.  When a socket
    that has not closed receives chat frames one after the other, before
    any append completes, the store is called once for each, in that order,
    with the identity of the socket and the content of the frame, and no
    frame is written to any socket meanwhile. *)
Theorem appends_follow_frames st c s frames :
  sockets st !! c = Some s -> readyState s <> CLOSED ->
  Forall is_chat_frame frames ->
  appends (run st (map (Message c) frames)).2 =
    map (fun data => (c, closure_deviceId s, content_of data)) frames
  /\ forall c', frames_to c' (run st (map (Message c) frames)).2 = [].
Proof.
  intros Hs Hlive Hframes. revert st Hs.
  induction Hframes as [|data frames [fs [Hparse Htype]] _ IH]; intros st Hs;
    [done|].
  change (map (Message c) (data :: frames))
    with (Message c data :: map (Message c) frames).
  rewrite run_cons.
  pose proof (step_chat st c s data fs Hs Hlive Hparse Htype) as Hstep.
  cbv zeta in Hstep. rewrite Hstep. cbn [fst snd].
  destruct (IH (suspend (ChatResume c (closure_deviceId s)
                  (PObject (set_prop "deviceId" (JString (closure_deviceId s)) fs))) st)
               Hs) as [IHa IHf].
  split.
  - rewrite appends_app, IHa. simpl. unfold content_of. by rewrite Hparse.
  - intros c'. by rewrite frames_to_app, IHf.
Qed.

End Properties.

(** * The theorems at concrete inputs *)

Lemma reachable_one_client : reachable (rt := Fixture.runtime) Scenario.one_client.
Proof. apply (reachable_run createWebSocketServer), reachable_initial. Qed.

Lemma reachable_same_key : reachable (rt := Fixture.runtime) Scenario.same_key.
Proof. apply (reachable_run createWebSocketServer), reachable_initial. Qed.

Lemma reachable_same_key_chat :
  reachable (rt := Fixture.runtime) Scenario.same_key_chat.
Proof. apply (reachable_run createWebSocketServer), reachable_initial. Qed.

Lemma reachable_three_open_one_closing :
  reachable (rt := Fixture.runtime) Scenario.three_open_one_closing.
Proof. apply (reachable_run createWebSocketServer), reachable_initial. Qed.

Lemma chat_dispatch_witness :
  step (rt := Fixture.runtime) Scenario.one_client
       (Message 0 (Fixture.stringify Fixture.chat_spoofed)) =
  (suspend (ChatResume 0 "k"
              (PObject [("type", JString "chat"); ("deviceId", JString "k");
                        ("content", JString "hello")]))
           Scenario.one_client,
   [Console (LogReceived
               (PObject [("type", JString "chat"); ("deviceId", JString "k");
                         ("content", JString "hello")]));
    SaveChatMessage 0 "k" (Some (JString "hello"))]).
Proof.
  apply (chat_dispatch (rt := Fixture.runtime) Scenario.one_client 0 Scenario.socket_k
           (Fixture.stringify Fixture.chat_spoofed)
           [("type", JString "chat"); ("deviceId", JString "someone-else");
            ("content", JString "hello")]);
    [reflexivity | discriminate | reflexivity | reflexivity].
Defined.

Lemma malformed_frame_dropped_witness :
  step (rt := Fixture.runtime) Scenario.one_client (Message 0 "{not json") =
  (Scenario.one_client, [Console (LogErrorHandling SyntaxError)]).
Proof.
  apply (malformed_frame_dropped (rt := Fixture.runtime) Scenario.one_client 0
           Scenario.socket_k "{not json");
    [reflexivity | discriminate | reflexivity].
Defined.

Lemma unknown_type_only_logs_witness :
  step (rt := Fixture.runtime) Scenario.one_client
       (Message 0 (Fixture.stringify Fixture.ping)) =
  (Scenario.one_client,
   [Console (LogReceived (PObject [("type", JString "ping"); ("deviceId", JString "k")]));
    Console (LogUnknownType (Some (JString "ping")))]).
Proof.
  apply (unknown_type_only_logs (rt := Fixture.runtime) Scenario.one_client 0
           Scenario.socket_k (Fixture.stringify Fixture.ping) Fixture.ping);
    [reflexivity | discriminate | reflexivity | discriminate | discriminate].
Defined.

Lemma chat_without_content_witness :
  step (rt := Fixture.runtime) Scenario.one_client
       (Message 0 (Fixture.stringify Fixture.chat_no_content)) =
  (suspend (ChatResume 0 "k"
              (PObject [("type", JString "chat"); ("deviceId", JString "k")]))
           Scenario.one_client,
   [Console (LogReceived
               (PObject [("type", JString "chat"); ("deviceId", JString "k")]));
    SaveChatMessage 0 "k" None])
  /\ (step (rt := Fixture.runtime)
           (suspend (ChatResume 0 "k"
                       (PObject [("type", JString "chat"); ("deviceId", JString "k")]))
                    Scenario.one_client)
           (Settle 1 (Fulfilled None))).2 =
     [WsSend 0 (Fixture.stringify
                  (JObject [("type", JString "chat"); ("deviceId", JString "k");
                            ("timestamp", JString "1970-01-01T00:00:00.000Z")]))].
Proof.
  destruct (chat_without_content (rt := Fixture.runtime) Scenario.one_client 0
              Scenario.socket_k (Fixture.stringify Fixture.chat_no_content)
              [("type", JString "chat")]
              eq_refl ltac:(discriminate) eq_refl eq_refl eq_refl)
    as [Hmessage Hecho].
  split; [exact Hmessage|].
  destruct (Hecho (suspend (ChatResume 0 "k"
                              (PObject [("type", JString "chat");
                                        ("deviceId", JString "k")]))
                           Scenario.one_client)
                  None {| ws := 0; deviceId := "k"; userId := None |}
                  eq_refl eq_refl eq_refl) as [Hsent _].
  exact Hsent.
Defined.

Lemma echo_goes_to_registered_connection_witness :
  (step (rt := Fixture.runtime) Scenario.same_key_chat
        (Settle 2 (Fulfilled None))).2 = [WsSend 1 Scenario.echo_hello]
  /\ forall B data',
       B <> 1 ->
       WsSend B data' ∉ (step (rt := Fixture.runtime) Scenario.same_key_chat
                                (Settle 2 (Fulfilled None))).2.
Proof.
  destruct (echo_goes_to_registered_connection (rt := Fixture.runtime)
              Scenario.same_key_chat 2 0 "k" Cases.stamped_hello
              reachable_same_key_chat eq_refl)
    as (_ & _ & Hregistered & _).
  destruct (Hregistered {| ws := 1; deviceId := "k"; userId := None |} None eq_refl)
    as (_ & Hopen & Hothers).
  split; [by apply Hopen | exact Hothers].
Defined.

Lemma broadcast_reaches_open_clients_witness :
  step (rt := Fixture.runtime) Scenario.three_open_one_closing
       (Broadcast (JString "tick")) =
  (Scenario.three_open_one_closing,
   [WsSend 0 (Fixture.stringify (JString "tick"));
    WsSend 2 (Fixture.stringify (JString "tick"));
    WsSend 3 (Fixture.stringify (JString "tick"))]).
Proof.
  apply (broadcast_reaches_open_clients (rt := Fixture.runtime)
           Scenario.three_open_one_closing (JString "tick")
           reachable_three_open_one_closing).
Defined.

(** A socket that has closed is no longer in [wss.clients]. *)
Example broadcast_three_open_one_closed :
  (step (rt := Fixture.runtime) Scenario.three_open_one_closed
        (Broadcast (JString "tick"))).2 =
  [WsSend 0 (Fixture.stringify (JString "tick"));
   WsSend 2 (Fixture.stringify (JString "tick"));
   WsSend 3 (Fixture.stringify (JString "tick"))].
Proof. reflexivity. Qed.

Lemma registry_last_writer_wins_witness :
  let st' := (step (rt := Fixture.runtime) Scenario.one_client
                   (Connection (Some "k"))).1 in
  activeSessions st' =
    <["k" := {| ws := 1; deviceId := "k"; userId := None |}]>
      (activeSessions Scenario.one_client)
  /\ (forall c s, sockets Scenario.one_client !! c = Some s -> sockets st' !! c = Some s)
  /\ (forall c, c ∈ clients Scenario.one_client -> c ∈ clients st').
Proof.
  apply (registry_last_writer_wins (rt := Fixture.runtime) Scenario.one_client
           reachable_one_client).
Defined.

Lemma identity_fixed_for_lifetime_witness :
  Forall (keyed_by 1 "k2")
    (run (rt := Fixture.runtime)
         (step (rt := Fixture.runtime) Scenario.one_client (Connection (Some "k2"))).1
         [Message 1 (Fixture.stringify Fixture.chat_hello);
          Settle 2 (Fulfilled None)]).2.
Proof.
  apply (identity_fixed_for_lifetime (rt := Fixture.runtime) Scenario.one_client
           (Some "k2")
           [Message 1 (Fixture.stringify Fixture.chat_hello);
            Settle 2 (Fulfilled None)]
           reachable_one_client).
Defined.

(** ** Further examples *)

(** A subscription to [weather] is answered to the requester, once. *)
Example subscribe_weather_confirmed :
  step (rt := Fixture.runtime) Scenario.one_client
       (Message 0 (Fixture.stringify Fixture.subscribe_weather)) =
  (Scenario.one_client,
   [Console (LogReceived
               (PObject [("type", JString "subscribe"); ("channel", JString "weather");
                         ("deviceId", JString "k")]));
    Console (LogSubscribed (Some (JString "weather")));
    WsSend 0 (Fixture.stringify
                (JObject [("type", JString "subscribed");
                          ("channel", JString "weather")]))]).
Proof. reflexivity. Qed.

(** A client-supplied [deviceId] is overwritten where it stands. *)
Example spoofed_deviceId_overwritten :
  (step (rt := Fixture.runtime) Scenario.one_client
        (Message 0 (Fixture.stringify Fixture.chat_spoofed))).2 =
  [Console (LogReceived
              (PObject [("type", JString "chat"); ("deviceId", JString "k");
                        ("content", JString "hello")]));
   SaveChatMessage 0 "k" (Some (JString "hello"))].
Proof. reflexivity. Qed.

(** An echo that [send] refuses is caught and logged by the listener. *)
Example failed_echo_is_logged :
  (step (rt := Fixture.strict_runtime) Scenario.closing_chat
        (Settle 1 (Fulfilled None))).2 =
  [Console (LogErrorHandling (NotOpenError CLOSING))].
Proof. reflexivity. Qed.

(** A failed append is caught and logged, and nothing is echoed. *)
Example failed_append_is_logged :
  (step (rt := Fixture.strict_runtime) Scenario.closing_chat
        (Settle 1 (Rejected (Rejection "disk full")))).2 =
  [Console (LogErrorHandling (Rejection "disk full"))].
Proof. reflexivity. Qed.

(** The history of a client that has gone: the [send] of the older [ws]
    releases throws inside the [then] callback, and nothing catches it. *)
Example history_after_close_escapes :
  (run (rt := Fixture.strict_runtime) createWebSocketServer
       [Connection (Some "k"); Close 0; Settle 0 (Fulfilled (Some (JArray [])))]).2 =
  [Console LogConnected;
   WsSend 0 (Fixture.stringify (welcome "k"));
   GetChatHistory 0 "k";
   Console LogDisconnected;
   Unhandled (NotOpenError CLOSED)].
Proof. reflexivity. Qed.

(** When the session is gone by the time the append completes, nothing is
    sent. *)
Example echo_skipped_after_close :
  (run (rt := Fixture.runtime) Scenario.one_client
       [Message 0 (Fixture.stringify Fixture.chat_hello); Close 0;
        Settle 1 (Fulfilled None)]).2 =
  [Console (LogReceived
              (PObject [("type", JString "chat"); ("content", JString "hello");
                        ("deviceId", JString "k")]));
   SaveChatMessage 0 "k" (Some (JString "hello"));
   Console LogDisconnected].
Proof. reflexivity. Qed.

(** The echo follows the registry.  Two clients share a key and the first
    sends a chat message; if the second closes before the append completes,
    nobody gets the echo. *)
Example echo_to_nobody_after_later_close :
  (run (rt := Fixture.runtime) Scenario.same_key_chat
       [Close 1; Settle 2 (Fulfilled None)]).2 =
  [Console LogDisconnected].
Proof. reflexivity. Qed.

(** If a third client connects under the key before the append completes,
    the third gets the echo. *)
Example echo_to_third_connection :
  (run (rt := Fixture.runtime) Scenario.same_key_chat
       [Connection (Some "k"); Settle 2 (Fulfilled None)]).2 =
  [Console LogConnected;
   WsSend 2 (Fixture.stringify (welcome "k"));
   GetChatHistory 2 "k";
   WsSend 2 Scenario.echo_hello].
Proof. reflexivity. Qed.

(** * Where the specification and the code differ *)

(** C2 as stated fails: two clients are connected with the same handshake
    key, both open.  The first sends a chat message; when its append
    completes, the echo is written to the second socket and nothing is
    written to the first. *)
Lemma echo_reaches_other_connection :
  readyState <$> sockets Scenario.same_key_chat !! 0 = Some OPEN
  /\ readyState <$> sockets Scenario.same_key_chat !! 1 = Some OPEN
  /\ (run (rt := Fixture.runtime) Scenario.same_key
          [Message 0 (Fixture.stringify Fixture.chat_hello);
           Settle 2 (Fulfilled None)]).2 =
     [Console (LogReceived
                 (PObject [("type", JString "chat"); ("content", JString "hello");
                           ("deviceId", JString "k")]));
      SaveChatMessage 0 "k" (Some (JString "hello"));
      WsSend 1 Scenario.echo_hello].
Proof. by split_and!. Qed.

(** C5 as stated fails: with two clients connected under the same handshake
    key, the registry holds a session for the second socket only, and a
    broadcast is written to both. *)
Lemma broadcast_reaches_unregistered_connection :
  (step (rt := Fixture.runtime) Scenario.same_key (Broadcast JNull)).2 =
    [WsSend 0 "null"; WsSend 1 "null"]
  /\ ~ exists d session,
         activeSessions Scenario.same_key !! d = Some session /\ ws session = 0.
Proof.
  split; [reflexivity|]. intros (d & session & Hd & Hws).
  pose proof (sessions_ok _ (reachable_consistent _ reachable_same_key) _ _ Hd)
    as [_ Hsock].
  rewrite Hws in Hsock. injection Hsock as <-.
  change (activeSessions Scenario.same_key)
    with (<["k" := {| ws := 1; deviceId := "k"; userId := None |}]>
            (<["k" := {| ws := 0; deviceId := "k"; userId := None |}]>
               (∅ : gmap string ClientSession))) in Hd.
  rewrite lookup_insert_eq in Hd. injection Hd as <-. discriminate.
Qed.


(** * The further properties at concrete inputs *)

Lemma reachable_one_client_chat :
  reachable (rt := Fixture.runtime) Cases.one_client_chat.
Proof. apply (reachable_run createWebSocketServer), reachable_initial. Qed.

Lemma registry_holds_no_closed_socket_witness :
  userId {| ws := 1; deviceId := "k"; userId := None |} = None
  /\ exists s, sockets Scenario.same_key !! 1 = Some s
               /\ (readyState s = OPEN \/ readyState s = CLOSING).
Proof.
  apply (registry_holds_no_closed_socket (rt := Fixture.runtime)
           Scenario.same_key "k" {| ws := 1; deviceId := "k"; userId := None |}
           reachable_same_key).
  reflexivity.
Defined.

Lemma chat_settle_outcome_witness :
  step (rt := Fixture.runtime) Scenario.same_key_chat
       (Settle 2 (Rejected (Rejection "disk full"))) =
  (resume 2 Scenario.same_key_chat,
   [Console (LogErrorHandling (Rejection "disk full"))]).
Proof.
  apply (chat_settle_outcome (rt := Fixture.runtime) Scenario.same_key_chat 2 0
           "k" Cases.stamped_hello (Rejected (Rejection "disk full"))
           reachable_same_key_chat).
  reflexivity.
Defined.

Lemma echo_returns_to_sole_sender_witness :
  step (rt := Fixture.runtime) Cases.one_client_chat (Settle 1 (Fulfilled None)) =
  (resume 1 Cases.one_client_chat, [WsSend 0 Scenario.echo_hello]).
Proof.
  apply (echo_returns_to_sole_sender (rt := Fixture.runtime)
           Cases.one_client_chat 1 0 Scenario.socket_k "k" Cases.stamped_hello None
           reachable_one_client_chat);
    [reflexivity | reflexivity | reflexivity |].
  intros s c' s' _ Hc' _. apply lookup_lt_Some in Hc'. simpl in Hc'. lia.
Defined.

Lemma history_replay_outcome_witness :
  exists s,
    sockets Scenario.one_client !! 0 = Some s /\ closure_deviceId s = "k"
    /\ step (rt := Fixture.runtime) Scenario.one_client
            (Settle 0 (Fulfilled (Some (JArray [JString "hello"])))) =
       (resume 0 Scenario.one_client,
        let data := Fixture.stringify
                      (history_event (Some (JArray [JString "hello"]))) in
        match readyState s with
        | OPEN => [WsSend 0 data]
        | _ => [WsDiscard 0 data]
        end).
Proof.
  apply (history_replay_outcome (rt := Fixture.runtime) Scenario.one_client 0 0
           "k" (Some (JArray [JString "hello"])) reachable_one_client).
  reflexivity.
Defined.

Lemma errors_escape_only_from_history_callback_witness :
  exists p r c d s,
    Settle 0 (Rejected (Rejection "disk full")) = Settle p r
    /\ pending Scenario.one_client !! p = Some (HistoryThen c d)
    /\ sockets Scenario.one_client !! c = Some s
    /\ (r = Rejected (Rejection "disk full")
        \/ (exists history, r = Fulfilled history)
           /\ send_after_close_throws (Runtime := Fixture.runtime) = true
           /\ Rejection "disk full" = NotOpenError (readyState s)
           /\ (readyState s = CLOSING \/ readyState s = CLOSED)).
Proof.
  apply (errors_escape_only_from_history_callback (rt := Fixture.runtime)
           Scenario.one_client (Settle 0 (Rejected (Rejection "disk full")))
           (Rejection "disk full") reachable_one_client).
  vm_compute. left.
Defined.


Lemma close_unregisters_identity_witness :
  activeSessions (step (rt := Fixture.runtime) Scenario.same_key (Close 0)).1 !! "k"
  = None.
Proof.
  apply (close_unregisters_identity (rt := Fixture.runtime) Scenario.same_key 0
           Scenario.socket_k);
    [reflexivity | discriminate].
Defined.

Lemma append_only_for_chat_witness :
  exists data fs s,
    Message 0 (Fixture.stringify Fixture.chat_hello) = Message 0 data
    /\ sockets Scenario.one_client !! 0 = Some s /\ readyState s <> CLOSED
    /\ closure_deviceId s = "k"
    /\ Fixture.parse data = Some (JObject fs)
    /\ get_prop "type" fs = Some (JString "chat")
    /\ Some (JString "hello") = get_prop "content" fs.
Proof.
  apply (append_only_for_chat (rt := Fixture.runtime) Scenario.one_client
           (Message 0 (Fixture.stringify Fixture.chat_hello)) 0 "k"
           (Some (JString "hello"))).
  vm_compute. right. left.
Defined.

Lemma registry_changes_only_on_connect_and_close_witness :
  activeSessions
    (step (rt := Fixture.runtime) Scenario.one_client
          (Message 0 (Fixture.stringify Fixture.chat_hello))).1
  = activeSessions Scenario.one_client.
Proof.
  apply (registry_changes_only_on_connect_and_close (rt := Fixture.runtime)
           Scenario.one_client (Message 0 (Fixture.stringify Fixture.chat_hello)));
    discriminate.
Defined.

Lemma connect_then_chat_echoes_witness :
  (run (rt := Fixture.runtime) createWebSocketServer
       [Connection (Some "k"); Message 0 (Fixture.stringify Fixture.chat_hello);
        Settle 1 (Fulfilled None)]).2 =
  [Console LogConnected;
   WsSend 0 (Fixture.stringify (welcome "k"));
   GetChatHistory 0 "k";
   Console (LogReceived Cases.stamped_hello);
   SaveChatMessage 0 "k" (Some (JString "hello"));
   WsSend 0 Scenario.echo_hello].
Proof.
  apply (connect_then_chat_echoes (rt := Fixture.runtime) createWebSocketServer
           (Some "k") (Fixture.stringify Fixture.chat_hello)
           [("type", JString "chat"); ("content", JString "hello")] None);
    reflexivity.
Defined.

Lemma first_frame_is_welcome_witness :
  exists rest,
    frames_to 1
      (run (rt := Fixture.runtime) createWebSocketServer
           [Connection (Some "k"); Connection None; Broadcast JNull;
            Settle 1 (Fulfilled None)]).2 =
    Fixture.stringify (welcome (Fixture.uuid 0)) :: rest.
Proof.
  apply (first_frame_is_welcome (rt := Fixture.runtime)
           [Connection (Some "k"); Connection None; Broadcast JNull;
            Settle 1 (Fulfilled None)]
           1 {| readyState := OPEN; closure_deviceId := Fixture.uuid 0 |}).
  reflexivity.
Defined.

Lemma appends_follow_frames_witness :
  appends
    (run (rt := Fixture.runtime) Scenario.one_client
         (map (Message 0) [Fixture.stringify Fixture.chat_hello;
                           Fixture.stringify Fixture.chat_no_content])).2 =
  [(0, "k", Some (JString "hello")); (0, "k", None)].
Proof.
  apply (appends_follow_frames (rt := Fixture.runtime) Scenario.one_client 0
           Scenario.socket_k
           [Fixture.stringify Fixture.chat_hello;
            Fixture.stringify Fixture.chat_no_content]);
    [reflexivity | discriminate |].
  repeat constructor.
  - by exists [("type", JString "chat"); ("content", JString "hello")].
  - by exists [("type", JString "chat")].
Defined.
